(** * AzureCosmosDBLoader: a shallow embedding of
      [langchain/document_loaders/azure_cosmosdb.py]

    The loader runs a query against a CosmosDB container, parses every
    returned item as JSON, applies a compiled jq program to it and turns
    every value the program yields (a "sample") into a [Document].

    The file has three layers:
    - the Python values the loader handles (JSON values), with the
      builtins the source calls on them: [str], [type], [json.dumps],
      [json.loads];
    - the external collaborators (the jq package and the azure-cosmos SDK),
      given by a [World] record: the loader's behaviour is stated for
      every world;
    - the loader itself: [__init__], [load], [_parse], [_get_text]. *)

From Stdlib Require Import ZArith NArith List String Ascii Lia.
From Stdlib Require Import Decimal DecimalN DecimalPos DecimalZ DecimalFacts.
From Stdlib Require Import DecimalString.
From stdpp Require Import base option list strings gmap.

Local Open Scope N_scope.

(** ** Python strings

    A Python [str] is a sequence of Unicode code points. *)

Definition pystr := list N.

(** The code points of an ASCII literal. *)
Definition u (s : string) : pystr := map N_of_ascii (list_ascii_of_string s).

Definition is_digit (c : N) : bool := (48 <=? c) && (c <=? 57).

Definition hex_digit (n : N) : N := if n <? 10 then 48 + n else 87 + n.

(** [hex_fixed w n]: [n] in lower-case hexadecimal on [w] digits, as
    Python's ['{:0wx}'.format(n)] for [n < 16^w]. *)
Fixpoint hex_fixed (w : nat) (n : N) : pystr :=
  match w with
  | O => []
  | S w' => hex_fixed w' (n / 16) ++ [hex_digit (n mod 16)]
  end.

Definition hex_val (c : N) : option N :=
  if is_digit c then Some (c - 48)
  else if (97 <=? c) && (c <=? 102) then Some (c - 87)
  else if (65 <=? c) && (c <=? 70) then Some (c - 55)
  else None.

Definition hex4 (a b c d : N) : option N :=
  match hex_val a, hex_val b, hex_val c, hex_val d with
  | Some x, Some y, Some z, Some w => Some (((x * 16 + y) * 16 + z) * 16 + w)
  | _, _, _, _ => None
  end.

Fixpoint join (sep : pystr) (parts : list pystr) : pystr :=
  match parts with
  | [] => []
  | [p] => p
  | p :: ps => p ++ sep ++ join sep ps
  end.

(** ** Integers in decimal: [int.__repr__] and [int(text)] *)

Fixpoint uint_digits (d : Decimal.uint) : pystr :=
  match d with
  | Nil => []
  | D0 d => 48 :: uint_digits d
  | D1 d => 49 :: uint_digits d
  | D2 d => 50 :: uint_digits d
  | D3 d => 51 :: uint_digits d
  | D4 d => 52 :: uint_digits d
  | D5 d => 53 :: uint_digits d
  | D6 d => 54 :: uint_digits d
  | D7 d => 55 :: uint_digits d
  | D8 d => 56 :: uint_digits d
  | D9 d => 57 :: uint_digits d
  end.

Definition digit_cons (c : N) (d : Decimal.uint) : Decimal.uint :=
  match c - 48 with
  | 0 => D0 d | 1 => D1 d | 2 => D2 d | 3 => D3 d | 4 => D4 d
  | 5 => D5 d | 6 => D6 d | 7 => D7 d | 8 => D8 d | _ => D9 d
  end.

Definition digits_uint (s : pystr) : Decimal.uint := foldr digit_cons Nil s.

Definition int_repr (z : Z) : pystr :=
  match Z.to_int z with
  | Pos d => uint_digits d
  | Neg d => 45 :: uint_digits d
  end.

(** [int(text)] on the text of a JSON integer, [-?[0-9]+]. *)
Definition parse_int (s : pystr) : Z :=
  match s with
  | c :: r => if c =? 45 then Z.of_int (Neg (digits_uint r))
              else Z.of_int (Pos (digits_uint s))
  | [] => 0%Z
  end.

(** The number of digits of the text of an integer, its sign apart. *)
Definition digit_count (s : pystr) : nat :=
  match s with
  | c :: r => if c =? 45 then length r else length s
  | [] => 0%nat
  end.

Definition nat_string (n : nat) : string :=
  NilEmpty.string_of_uint (Nat.to_uint n).

(** ** JSON numbers: the scanner's [NUMBER_RE]

    An optional minus sign and an integer part (a single [0], or a
    non-zero digit followed by digits); then optionally a fraction (a dot
    and at least one digit); then optionally an exponent ([e] or [E], an
    optional sign and at least one digit). *)

Fixpoint span_digits (s : pystr) : pystr * pystr :=
  match s with
  | c :: r =>
      if is_digit c then let (d, r') := span_digits r in (c :: d, r')
      else ([], s)
  | [] => ([], [])
  end.

Definition match_int (s : pystr) : option (pystr * pystr) :=
  let (sign, r) :=
    match s with
    | c :: r => if c =? 45 then ([45], r) else ([], s)
    | [] => ([], s)
    end in
  match r with
  | c :: r' =>
      if c =? 48 then Some (sign ++ [48], r')
      else if is_digit c then
        let (d, r'') := span_digits r' in Some (sign ++ c :: d, r'')
      else None
  | [] => None
  end.

Definition match_frac (s : pystr) : option (pystr * pystr) :=
  match s with
  | c :: r =>
      if c =? 46 then
        match span_digits r with
        | ([], _) => None
        | (d, r') => Some (c :: d, r')
        end
      else None
  | [] => None
  end.

Definition match_exp (s : pystr) : option (pystr * pystr) :=
  match s with
  | c :: r =>
      if (c =? 101) || (c =? 69) then
        let (sg, r1) :=
          match r with
          | x :: r1 => if (x =? 45) || (x =? 43) then ([x], r1) else ([], r)
          | [] => ([], r)
          end in
        match span_digits r1 with
        | ([], _) => None
        | (d, r2) => Some (c :: sg ++ d, r2)
        end
      else None
  | [] => None
  end.

(** The matched text, whether it has a fraction or an exponent (and so is
    a float), and the text that follows. *)
Definition match_number (s : pystr) : option (pystr * bool * pystr) :=
  match match_int s with
  | None => None
  | Some (i, r) =>
      let (f, r1) :=
        match match_frac r with Some (f, r1) => (f, r1) | None => ([], r) end in
      let (e, r2) :=
        match match_exp r1 with Some (e, r2) => (e, r2) | None => ([], r1) end in
      Some (i ++ f ++ e, negb (bool_decide (f = []) && bool_decide (e = [])), r2)
  end.

Definition is_float_literal (s : pystr) : bool :=
  match match_number s with
  | Some (_, isfloat, []) => isfloat
  | _ => false
  end.

(** ** Floats, and the interpreter

    A Python [float] is a finite binary64 value, an infinity or NaN.  The
    finite values and their conversions to and from text are those of the
    interpreter: they are taken as an interface, with the two facts about
    [float.__repr__] that the JSON codec relies on.

    The interpreter also bounds the number of digits in a conversion
    between [int] and [str]: [sys.get_int_max_str_digits()], 4300 unless
    set otherwise, 0 for no bound; a bound can only be set to 640 or
    more. *)

Inductive pyfloat (F : Type) : Type :=
| Finite (x : F)
| Infinity (negative : bool)
| NaN.
Arguments Finite {F} x.
Arguments Infinity {F} negative.
Arguments NaN {F}.

Class PyRuntime := {
  (** finite binary64 values *)
  float : Type;
  (** [float.__repr__] on a finite value: the shortest text that reads back *)
  float_repr : float -> pystr;
  (** [float(text)] on a text matched by [NUMBER_RE] *)
  float_of_literal : pystr -> pyfloat float;
  (** [str.isprintable] on a code point above U+007F *)
  isprintable : N -> bool;
  (** [sys.get_int_max_str_digits()] *)
  int_max_str_digits : nat;
  int_max_str_digits_valid :
    int_max_str_digits = 0%nat \/ (640 <= int_max_str_digits)%nat;
  float_repr_literal : forall x, is_float_literal (float_repr x) = true;
  float_of_repr : forall x, float_of_literal (float_repr x) = Finite x
}.

(** ** Exceptions and results *)

Inductive PyExn : Type :=
| ImportError (msg : string)
| AttributeError (msg : string)
| ValueError (msg : string)
| TypeError (msg : string)
| JSONDecodeError
| OtherError (cls msg : string).

Inductive Result (A : Type) : Type :=
| Ok (a : A)
| Raise (e : PyExn).
Arguments Ok {A} a.
Arguments Raise {A} e.

Section Python.
Context {RT : PyRuntime}.

(** ** Python values

    The values [json.loads] and a jq program produce.  A [dict] keeps its
    insertion order; its keys are strings. *)

#[warnings="-register-all"]
Inductive PyVal : Type :=
| PNone
| PBool (b : bool)
| PInt (z : Z)
| PFloat (f : pyfloat float)
| PStr (s : pystr)
| PList (l : list PyVal)
| PDict (d : list (pystr * PyVal)).

(** [type(v).__name__] *)
Definition type_name (v : PyVal) : string :=
  match v with
  | PNone => "NoneType"
  | PBool _ => "bool"
  | PInt _ => "int"
  | PFloat _ => "float"
  | PStr _ => "str"
  | PList _ => "list"
  | PDict _ => "dict"
  end.

(** [str(type(v))] *)
Definition type_repr (v : PyVal) : string := "<class '" ++ type_name v ++ "'>".

(** *** The digit limit

    [str(z)] and [int(text)] raise [ValueError] when the number has more
    digits than the interpreter allows. *)

Definition exceeds_limit (digits : nat) : bool :=
  (0 <? int_max_str_digits)%nat && (int_max_str_digits <? digits)%nat.

Definition int_to_str_error : PyExn :=
  ValueError ("Exceeds the limit (" ++ nat_string int_max_str_digits
              ++ " digits) for integer string conversion; "
              ++ "use sys.set_int_max_str_digits() to increase the limit").

Definition str_to_int_error (digits : nat) : PyExn :=
  ValueError ("Exceeds the limit (" ++ nat_string int_max_str_digits
              ++ " digits) for integer string conversion: value has "
              ++ nat_string digits ++ " digits; "
              ++ "use sys.set_int_max_str_digits() to increase the limit").

(** [str(z)], [repr(z)] *)
Definition int_str (z : Z) : Result pystr :=
  if exceeds_limit (digit_count (int_repr z)) then Raise int_to_str_error
  else Ok (int_repr z).

(** [int(text)] on the text of a JSON integer *)
Definition int_of_str (s : pystr) : Result Z :=
  if exceeds_limit (digit_count s) then Raise (str_to_int_error (digit_count s))
  else Ok (parse_int s).

(** The elements of a sequence converted one after the other: the first
    exception ends the conversion. *)
Definition mapR {A B} (f : A -> Result B) : list A -> Result (list B) :=
  fix go (l : list A) : Result (list B) :=
    match l with
    | [] => Ok []
    | x :: l' =>
        match f x with
        | Raise e => Raise e
        | Ok y =>
            match go l' with
            | Raise e => Raise e
            | Ok ys => Ok (y :: ys)
            end
        end
    end.

(** *** [repr] and [str]

    [repr] of a string picks the quote (a double quote when the string has
    single quotes and no double quote) and escapes the quote, the
    backslash, control characters and what [isprintable] rejects. *)

Definition repr_quote (s : pystr) : N :=
  if existsb (N.eqb 39) s && negb (existsb (N.eqb 34) s) then 34 else 39.

Definition repr_char (q c : N) : pystr :=
  if (c =? q) || (c =? 92) then [92; c]
  else if c =? 9 then u "\t"
  else if c =? 10 then u "\n"
  else if c =? 13 then u "\r"
  else if (c <? 32) || (c =? 127) then u "\x" ++ hex_fixed 2 c
  else if c <? 127 then [c]
  else if isprintable c then [c]
  else if c <=? 255 then u "\x" ++ hex_fixed 2 c
  else if c <=? 65535 then u "\u" ++ hex_fixed 4 c
  else u "\U" ++ hex_fixed 8 c.

Definition repr_str (s : pystr) : pystr :=
  let q := repr_quote s in
  q :: flat_map (repr_char q) s ++ [q].

Definition float_str (f : pyfloat float) : pystr :=
  match f with
  | Finite x => float_repr x
  | Infinity false => u "inf"
  | Infinity true => u "-inf"
  | NaN => u "nan"
  end.

Fixpoint py_repr (v : PyVal) : Result pystr :=
  match v with
  | PNone => Ok (u "None")
  | PBool true => Ok (u "True")
  | PBool false => Ok (u "False")
  | PInt z => int_str z
  | PFloat f => Ok (float_str f)
  | PStr s => Ok (repr_str s)
  | PList l =>
      match mapR py_repr l with
      | Raise e => Raise e
      | Ok parts => Ok (u "[" ++ join (u ", ") parts ++ u "]")
      end
  | PDict d =>
      match mapR (fun kv =>
                    match py_repr (snd kv) with
                    | Raise e => Raise e
                    | Ok text => Ok (repr_str (fst kv) ++ u ": " ++ text)
                    end) d with
      | Raise e => Raise e
      | Ok parts => Ok (u "{" ++ join (u ", ") parts ++ u "}")
      end
  end.

(** [str(v)]: a string is itself, everything else prints as its [repr]. *)
Definition py_str (v : PyVal) : Result pystr :=
  match v with
  | PStr s => Ok s
  | _ => py_repr v
  end.

(** *** [json.dumps] with its default arguments

    [ensure_ascii=True]: everything outside [' '..'~'] is written as a
    [\uXXXX] escape, a code point above U+FFFF as a surrogate pair.
    Separators are [", "] and [": "]; [allow_nan=True].  An integer is
    written by [int.__repr__], which raises beyond the digit limit. *)

Definition json_escape_char (c : N) : pystr :=
  if c =? 34 then [92; 34]
  else if c =? 92 then [92; 92]
  else if c =? 10 then u "\n"
  else if c =? 13 then u "\r"
  else if c =? 9 then u "\t"
  else if c =? 8 then u "\b"
  else if c =? 12 then u "\f"
  else if (32 <=? c) && (c <=? 126) then [c]
  else if c <? 65536 then u "\u" ++ hex_fixed 4 c
  else
    let v := c - 65536 in
    u "\u" ++ hex_fixed 4 (N.lor 55296 (N.land (N.shiftr v 10) 1023))
      ++ u "\u" ++ hex_fixed 4 (N.lor 56320 (N.land v 1023)).

Definition json_string (s : pystr) : pystr :=
  34 :: flat_map json_escape_char s ++ [34].

Definition json_float (f : pyfloat float) : pystr :=
  match f with
  | Finite x => float_repr x
  | Infinity false => u "Infinity"
  | Infinity true => u "-Infinity"
  | NaN => u "NaN"
  end.

Fixpoint json_dumps (v : PyVal) : Result pystr :=
  match v with
  | PNone => Ok (u "null")
  | PBool true => Ok (u "true")
  | PBool false => Ok (u "false")
  | PInt z => int_str z
  | PFloat f => Ok (json_float f)
  | PStr s => Ok (json_string s)
  | PList l =>
      match mapR json_dumps l with
      | Raise e => Raise e
      | Ok parts => Ok (u "[" ++ join (u ", ") parts ++ u "]")
      end
  | PDict d =>
      match mapR (fun kv =>
                    match json_dumps (snd kv) with
                    | Raise e => Raise e
                    | Ok text => Ok (json_string (fst kv) ++ u ": " ++ text)
                    end) d with
      | Raise e => Raise e
      | Ok parts => Ok (u "{" ++ join (u ", ") parts ++ u "}")
      end
  end.

(** *** [json.loads]

    The decoder of the standard library ([strict=True], default hooks).
    In the scanners of strings and numbers [None] stands for a text that
    does not match. *)

Definition is_ws (c : N) : bool :=
  (c =? 32) || (c =? 9) || (c =? 10) || (c =? 13).

Fixpoint skip_ws (s : pystr) : pystr :=
  match s with
  | c :: r => if is_ws c then skip_ws r else s
  | [] => []
  end.

(** The escapes of a single character: the decoder's [BACKSLASH] table. *)
Definition unescape (c : N) : option N :=
  if c =? 34 then Some 34
  else if c =? 92 then Some 92
  else if c =? 47 then Some 47
  else if c =? 98 then Some 8
  else if c =? 102 then Some 12
  else if c =? 110 then Some 10
  else if c =? 114 then Some 13
  else if c =? 116 then Some 9
  else None.

Definition is_high_surrogate (c : N) : bool := (55296 <=? c) && (c <=? 56319).
Definition is_low_surrogate (c : N) : bool := (56320 <=? c) && (c <=? 57343).
Definition join_surrogates (hi lo : N) : N :=
  65536 + (N.lor (N.shiftl (N.land hi 1023) 10) (N.land lo 1023)).

(** [scanstring s]: [s] starts after the opening quote; the string's
    content and the text after the closing quote.  A [\uXXXX] escape of a
    high surrogate followed by one of a low surrogate is one code point. *)
Fixpoint scanstring (s : pystr) : option (pystr * pystr) :=
  match s with
  | [] => None
  | c :: r =>
      if c =? 34 then Some ([], r)
      else if c =? 92 then
        match r with
        | [] => None
        | e :: r1 =>
            if e =? 117 then
              match r1 with
              | h1 :: h2 :: h3 :: h4 :: r2 =>
                  match hex4 h1 h2 h3 h4 with
                  | None => None
                  | Some c1 =>
                      let single :=
                        match scanstring r2 with
                        | Some (t, rest) => Some (c1 :: t, rest)
                        | None => None
                        end in
                      if is_high_surrogate c1 then
                        match r2 with
                        | b :: x :: l1 :: l2 :: l3 :: l4 :: r3 =>
                            if (b =? 92) && (x =? 117) then
                              match hex4 l1 l2 l3 l4 with
                              | None => None
                              | Some c2 =>
                                  if is_low_surrogate c2 then
                                    match scanstring r3 with
                                    | Some (t, rest) =>
                                        Some (join_surrogates c1 c2 :: t, rest)
                                    | None => None
                                    end
                                  else single
                              end
                            else single
                        | _ => single
                        end
                      else single
                  end
              | _ => None
              end
            else
              match unescape e with
              | None => None
              | Some c' =>
                  match scanstring r1 with
                  | Some (t, rest) => Some (c' :: t, rest)
                  | None => None
                  end
              end
        end
      else if c <? 32 then None
      else
        match scanstring r with
        | Some (t, rest) => Some (c :: t, rest)
        | None => None
        end
  end.

(** [d[k] = v] on an insertion-ordered dict. *)
Fixpoint dict_setitem (k : pystr) (v : PyVal) (d : list (pystr * PyVal))
  : list (pystr * PyVal) :=
  match d with
  | [] => [(k, v)]
  | (k', v') :: d' =>
      if bool_decide (k' = k) then (k, v) :: d' else (k', v') :: dict_setitem k v d'
  end.

Definition strip_prefix (p s : pystr) : option pystr :=
  if bool_decide (take (length p) s = p) then Some (drop (length p) s) else None.

Definition scan_number (s : pystr) : Result (PyVal * pystr) :=
  match match_number s with
  | Some (text, isfloat, rest) =>
      if isfloat then Ok (PFloat (float_of_literal text), rest)
      else
        match int_of_str text with
        | Raise e => Raise e
        | Ok z => Ok (PInt z, rest)
        end
  | None => Raise JSONDecodeError
  end.

(** [scan_once]: one JSON value at the head of the text.  A text that is
    not JSON raises [JSONDecodeError]; an integer beyond the digit limit
    raises the [ValueError] of [int].  The fuel bounds the nesting and the
    number of members; [json_loads] gives enough of it for every text. *)
Fixpoint scan_once (fuel : nat) (s : pystr) : Result (PyVal * pystr) :=
  match fuel with
  | O => Raise JSONDecodeError
  | S n =>
      match s with
      | [] => Raise JSONDecodeError
      | c :: r =>
          if c =? 34 then
            match scanstring r with
            | Some (t, rest) => Ok (PStr t, rest)
            | None => Raise JSONDecodeError
            end
          else if c =? 123 then
            match skip_ws r with
            | c1 :: r1 =>
                if c1 =? 125 then Ok (PDict [], r1)
                else scan_members n (skip_ws r) []
            | [] => Raise JSONDecodeError
            end
          else if c =? 91 then
            match skip_ws r with
            | c1 :: r1 =>
                if c1 =? 93 then Ok (PList [], r1)
                else scan_items n (skip_ws r) []
            | [] => Raise JSONDecodeError
            end
          else
            match strip_prefix (u "null") s with
            | Some rest => Ok (PNone, rest)
            | None =>
            match strip_prefix (u "true") s with
            | Some rest => Ok (PBool true, rest)
            | None =>
            match strip_prefix (u "false") s with
            | Some rest => Ok (PBool false, rest)
            | None =>
            match strip_prefix (u "NaN") s with
            | Some rest => Ok (PFloat NaN, rest)
            | None =>
            match strip_prefix (u "Infinity") s with
            | Some rest => Ok (PFloat (Infinity false), rest)
            | None =>
            match strip_prefix (u "-Infinity") s with
            | Some rest => Ok (PFloat (Infinity true), rest)
            | None => scan_number s
            end end end end end end
      end
  end

(** the items of an array, [s] at the start of an item *)
with scan_items (fuel : nat) (s : pystr) (acc : list PyVal)
  : Result (PyVal * pystr) :=
  match fuel with
  | O => Raise JSONDecodeError
  | S n =>
      match scan_once n s with
      | Raise e => Raise e
      | Ok (v, r) =>
          match skip_ws r with
          | c :: r1 =>
              if c =? 93 then Ok (PList (acc ++ [v]), r1)
              else if c =? 44 then scan_items n (skip_ws r1) (acc ++ [v])
              else Raise JSONDecodeError
          | [] => Raise JSONDecodeError
          end
      end
  end

(** the members of an object, [s] at the quote that opens a key *)
with scan_members (fuel : nat) (s : pystr) (acc : list (pystr * PyVal))
  : Result (PyVal * pystr) :=
  match fuel with
  | O => Raise JSONDecodeError
  | S n =>
      match s with
      | q :: r =>
          if q =? 34 then
            match scanstring r with
            | None => Raise JSONDecodeError
            | Some (k, r1) =>
                match skip_ws r1 with
                | c :: r2 =>
                    if c =? 58 then
                      match scan_once n (skip_ws r2) with
                      | Raise e => Raise e
                      | Ok (v, r3) =>
                          match skip_ws r3 with
                          | c' :: r4 =>
                              if c' =? 125 then Ok (PDict (dict_setitem k v acc), r4)
                              else if c' =? 44 then
                                scan_members n (skip_ws r4) (dict_setitem k v acc)
                              else Raise JSONDecodeError
                          | [] => Raise JSONDecodeError
                          end
                      end
                    else Raise JSONDecodeError
                | [] => Raise JSONDecodeError
                end
            end
          else Raise JSONDecodeError
      | [] => Raise JSONDecodeError
      end
  end.

(** [JSONDecoder.decode]: leading blanks, one value, trailing blanks, and
    nothing else. *)
Definition json_decode (s : pystr) : Result PyVal :=
  match scan_once (S (length s)) (skip_ws s) with
  | Ok (v, rest) =>
      match skip_ws rest with
      | [] => Ok v
      | _ => Raise JSONDecodeError
      end
  | Raise e => Raise e
  end.

(** [json.loads(o)]: only a [str] is decoded (there are no [bytes] among
    the values modelled). *)
Definition json_loads (o : PyVal) : Result PyVal :=
  match o with
  | PStr s => json_decode s
  | _ =>
      Raise (TypeError ("the JSON object must be str, bytes or bytearray, not "
                        ++ type_name o))
  end.

End Python.

(** ** A state and exception monad

    [M S A]: a computation on a mutable state [S] that returns an [A] or
    raises.  The state reached when an exception is raised is kept: it is
    what the objects the code mutated look like at that point. *)

Definition M (S A : Type) : Type := S -> Result A * S.

Definition ret {S A} (a : A) : M S A := fun s => (Ok a, s).
Definition raise {S A} (e : PyExn) : M S A := fun s => (Raise e, s).
Definition bind {S A B} (m : M S A) (k : A -> M S B) : M S B :=
  fun s =>
    match m s with
    | (Ok a, s') => k a s'
    | (Raise e, s') => (Raise e, s')
    end.
Definition lift {S A} (r : Result A) : M S A := fun s => (r, s).
Definition get {S} : M S S := fun s => (Ok s, s).
Definition modify {S} (f : S -> S) : M S unit := fun s => (Ok tt, f s).

Notation "x <- m ;; k" := (bind m (fun x => k))
  (at level 100, m at next level, right associativity).
Notation "m ;; k" := (bind m (fun _ => k))
  (at level 100, right associativity).

(** An iterator handed out by a library: the values it yields, and the
    exception that ends it when it does not end normally. *)
Record Iter (A : Type) : Type := { yielded : list A; failure : option PyExn }.
Arguments yielded {A} i.
Arguments failure {A} i.

(** [for x in it: body(x)] *)
Fixpoint for_each {S A} (body : A -> M S unit) (l : list A) : M S unit :=
  match l with
  | [] => ret tt
  | x :: l' => body x ;; for_each body l'
  end.

(** [enumerate(l, start)] *)
Fixpoint enumerate {A} (l : list A) (start : Z) : list (Z * A) :=
  match l with
  | [] => []
  | x :: l' => (start, x) :: enumerate l' (start + 1)%Z
  end.

Definition end_of {S A} (it : Iter A) : M S unit :=
  match failure it with
  | Some e => raise e
  | None => ret tt
  end.

Section LoaderModel.
Context {RT : PyRuntime}.

(** ** The collaborators *)

(** A compiled jq program: [program.input(value)] is the iterator over
    the values the program yields on [value]. *)
Record JqProgram : Type := {
  program_string : pystr;
  input : PyVal -> Iter PyVal
}.

(** What an attribute of the loader holds. *)
Inductive Attr : Type :=
| AStr (s : pystr)
| ABool (b : bool)
| AProgram (p : JqProgram).

(** The objects of the SDK, by identity. *)
Definition handle := nat.

(** [azure.cosmos]: [CosmosClient.from_connection_string],
    [get_database_client], [get_container_client], [query_items]. *)
Record CosmosSDK : Type := {
  from_connection_string : Attr -> Result handle;
  get_database_client : handle -> Attr -> Result handle;
  get_container_client : handle -> Attr -> Result handle;
  query_items : handle -> Attr -> Attr -> Result (Iter PyVal)
}.

(** The environment the loader runs in: each package is importable or
    not ([None]: the import raises [ImportError]).  The jq package is its
    [compile] function. *)
Record World : Type := {
  jq : option (pystr -> Result JqProgram);
  azure_cosmos : option CosmosSDK
}.

(** The calls made to the SDK, in order. *)
Inductive Call : Type :=
| CallFromConnectionString (conn_str : Attr)
| CallGetDatabaseClient (client : handle) (database : Attr)
| CallGetContainerClient (database : handle) (container : Attr)
| CallQueryItems (container : handle) (query cross_partition : Attr).

Definition call {A} (c : Call) (r : Result A) : M (list Call) A :=
  fun log => (r, log ++ [c]).

(** ** The loader object

    An object is the data attributes it can read: those of its
    [__dict__], over those its class provides. *)
Abbreviation Loader := (gmap string Attr).

(** Modelled from the spec: the base class [BaseLoader]
    (langchain/document_loaders/base.py), which is not among the sources.
    The data model of the specification gives the loader seven
    configuration values (connection string, database, container, query,
    cross-partition flag, filter expression, text-mode flag) and nothing
    else: the base class brings methods, and no data attribute. *)
Definition BaseLoader : Loader := ∅.

Definition getattr (self : Loader) (name : string) : Result Attr :=
  match self !! name with
  | Some a => Ok a
  | None =>
      Raise (AttributeError
               ("'AzureCosmosDBLoader' object has no attribute '" ++ name ++ "'"))
  end.

Definition setattr (name : string) (a : Attr) : M Loader unit :=
  modify (fun self => <[name := a]> self).

(** [bool(a)] *)
Definition attr_truthy (a : Attr) : bool :=
  match a with
  | AStr s => negb (bool_decide (s = []))
  | ABool b => b
  | AProgram _ => true
  end.

(** [str(a)] *)
Definition attr_str (a : Attr) : pystr :=
  match a with
  | AStr s => s
  | ABool true => u "True"
  | ABool false => u "False"
  | AProgram p => u "jq.compile(" ++ repr_str (program_string p) ++ u ")"
  end.

Definition attr_type_name (a : Attr) : string :=
  match a with
  | AStr _ => "str"
  | ABool _ => "bool"
  | AProgram _ => "jq._Program"
  end.

(** [a.input], the bound method. *)
Definition attr_input (a : Attr) : Result (PyVal -> Iter PyVal) :=
  match a with
  | AProgram p => Ok (input p)
  | _ =>
      Raise (AttributeError
               ("'" ++ attr_type_name a ++ "' object has no attribute 'input'"))
  end.

Record Document : Type := {
  page_content : pystr;
  metadata : gmap string PyVal
}.

(** The arguments of the constructor. *)
Record InitArgs : Type := {
  conn_str : pystr;
  database : pystr;
  container : pystr;
  query : pystr;
  jq_schema : pystr;
  enable_cross_partition_query : bool;
  text_content : bool
}.

Definition import_jq (W : World) : Result (pystr -> Result JqProgram) :=
  match jq W with
  | Some compile => Ok compile
  | None =>
      Raise (ImportError "jq package not found, please install it with `pip install jq`")
  end.

Definition __init__ (W : World) (args : InitArgs) : M Loader unit :=
  compile <- lift (import_jq W) ;;
  setattr "_conn_str" (AStr (conn_str args)) ;;
  setattr "database" (AStr (database args)) ;;
  setattr "container" (AStr (container args)) ;;
  setattr "query" (AStr (query args)) ;;
  setattr "_enable_cross_partition_query" (ABool (enable_cross_partition_query args)) ;;
  program <- lift (compile (jq_schema args)) ;;
  setattr "_jq_schema" (AProgram program) ;;
  setattr "_text_content" (ABool (text_content args)).

(** [AzureCosmosDBLoader(...)]: a fresh object of the class, initialised. *)
Definition new (W : World) (args : InitArgs) : Result Loader :=
  match __init__ W args BaseLoader with
  | (Ok _, self) => Ok self
  | (Raise e, _) => Raise e
  end.

Definition type_mismatch (content : PyVal) : string :=
  "Expected page_content is string, got " ++ type_repr content ++ " instead. "
  ++ "                    Set `text_content=False` if the desired input for "
  ++ "                    `page_content` is not a string".

Definition is_str (v : PyVal) : bool :=
  match v with PStr _ => true | _ => false end.

Definition _get_text (self : Loader) (sample : PyVal) (metadata : gmap string PyVal)
  : Result pystr :=
  let content := sample in
  match getattr self "_text_content" with
  | Raise e => Raise e
  | Ok flag =>
      if attr_truthy flag && negb (is_str content) then
        Raise (ValueError (type_mismatch content))
      else
        match content with
        | PStr s => Ok s
        | PDict d => match d with [] => Ok [] | _ => json_dumps content end
        | PNone => Ok []
        | _ => py_str content
        end
  end.

(** [dict(source=str(file_path), seq_num=i)] *)
Definition sample_metadata (file_path : Attr) (i : Z) : gmap string PyVal :=
  <["seq_num" := PInt i]> (<["source" := PStr (attr_str file_path)]> ∅).

(** The body of the loop of [_parse]. *)
Definition parse_sample (self : Loader) (i : Z) (sample : PyVal)
  : M (list Document) unit :=
  file_path <- lift (getattr self "file_path") ;;
  let metadata := sample_metadata file_path i in
  text <- lift (_get_text self sample metadata) ;;
  modify (fun docs => docs ++ [{| page_content := text; metadata := metadata |}]).

(** [_parse(self, content, docs)]: the state is the list [docs]. *)
Definition _parse (self : Loader) (content : PyVal) : M (list Document) unit :=
  schema <- lift (getattr self "_jq_schema") ;;
  input <- lift (attr_input schema) ;;
  value <- lift (json_loads content) ;;
  let data := input value in
  docs <- get ;;
  for_each (fun '(i, sample) => parse_sample self i sample)
           (enumerate (yielded data) (Z.of_nat (length docs) + 1)) ;;
  end_of data.

Definition import_cosmos (W : World) : Result CosmosSDK :=
  match azure_cosmos W with
  | Some sdk => Ok sdk
  | None =>
      Raise (ImportError ("Could not import azure cosmos python package. "
                          ++ "Please install it with `pip install azure-cosmos`."))
  end.

(** The loop of [load] on the list [docs]. *)
Definition parse_items (self : Loader) (items : Iter PyVal) : M (list Document) unit :=
  for_each (_parse self) (yielded items) ;;
  end_of items.

(** [docs = []], the loop, [return docs]: the list is local to the call,
    so the caller gets it when the loop ends and nothing when it raises. *)
Definition collect (self : Loader) (items : Iter PyVal) : Result (list Document) :=
  match parse_items self items [] with
  | (Ok _, docs) => Ok docs
  | (Raise e, _) => Raise e
  end.

(** [load(self)]: the state is the log of the calls to the SDK. *)
Definition load (W : World) (self : Loader) : M (list Call) (list Document) :=
  sdk <- lift (import_cosmos W) ;;
  conn_str <- lift (getattr self "_conn_str") ;;
  db <- call (CallFromConnectionString conn_str) (from_connection_string sdk conn_str) ;;
  name <- lift (getattr self "database") ;;
  database <- call (CallGetDatabaseClient db name) (get_database_client sdk db name) ;;
  name <- lift (getattr self "container") ;;
  container <- call (CallGetContainerClient database name)
                    (get_container_client sdk database name) ;;
  query <- lift (getattr self "query") ;;
  cross <- lift (getattr self "_enable_cross_partition_query") ;;
  items <- call (CallQueryItems container query cross)
                (query_items sdk container query cross) ;;
  lift (collect self items).

End LoaderModel.

Abbreviation Loader := (gmap string Attr).

(** ** What the loader is expected to compute, without the loop

    [sample_document]: the document of one sample; [item_samples]: the
    samples of one item; [documents_of]: the documents of a whole result
    set, numbered from 1, when every step succeeds. *)

Section Specification.
Context {RT : PyRuntime}.

Definition sample_document (self : Loader) (i : Z) (sample : PyVal)
  : Result Document :=
  match getattr self "file_path" with
  | Raise e => Raise e
  | Ok file_path =>
      match _get_text self sample (sample_metadata file_path i) with
      | Raise e => Raise e
      | Ok text =>
          Ok {| page_content := text; metadata := sample_metadata file_path i |}
      end
  end.

Definition item_samples (self : Loader) (content : PyVal) : Result (list PyVal) :=
  match getattr self "_jq_schema" with
  | Raise e => Raise e
  | Ok schema =>
      match attr_input schema with
      | Raise e => Raise e
      | Ok input =>
          match json_loads content with
          | Raise e => Raise e
          | Ok value =>
              match failure (input value) with
              | Some e => Raise e
              | None => Ok (yielded (input value))
              end
          end
      end
  end.

Definition returned {A} (r : Result A) : option A :=
  match r with
  | Ok a => Some a
  | Raise _ => None
  end.

Definition documents_of (self : Loader) (items : Iter PyVal) : option (list Document) :=
  match failure items with
  | Some _ => None
  | None =>
      samples ← mapM (fun content => returned (item_samples self content)) (yielded items);
      mapM (fun '(i, sample) => returned (sample_document self i sample))
           (enumerate (concat samples) 1)
  end.

(** The query of [load] went through and gave the iterator [items]. *)
Definition query_result (W : World) (self : Loader) (items : Iter PyVal) : Prop :=
  exists sdk client db cont conn dname cname q cross,
    azure_cosmos W = Some sdk /\
    self !! "_conn_str" = Some conn /\
    from_connection_string sdk conn = Ok client /\
    self !! "database" = Some dname /\
    get_database_client sdk client dname = Ok db /\
    self !! "container" = Some cname /\
    get_container_client sdk db cname = Ok cont /\
    self !! "query" = Some q /\
    self !! "_enable_cross_partition_query" = Some cross /\
    query_items sdk cont q cross = Ok items.

(** The [seq_num] entries of a list of documents. *)
Definition seq_nums (docs : list Document) : list (option PyVal) :=
  map (fun d => metadata d !! "seq_num") docs.

(** The flag [__init__] stores from its [text_content] argument. *)
Definition text_mode (self : Loader) (enabled : bool) : Prop :=
  self !! "_text_content" = Some (ABool enabled).

Definition is_dict (v : PyVal) : bool :=
  match v with PDict _ => true | _ => false end.

Definition is_none (v : PyVal) : bool :=
  match v with PNone => true | _ => false end.

(** *** The texts written within the digit limit

    Every conversion that fails raises the same exception, so [repr] and
    [json.dumps] fail exactly when some integer of the value is beyond
    the digit limit, and otherwise write [repr_text] and [json_text]. *)

Fixpoint ints_within_limit (v : PyVal) : bool :=
  match v with
  | PInt z => negb (exceeds_limit (digit_count (int_repr z)))
  | PList l => forallb ints_within_limit l
  | PDict d => forallb (fun kv => ints_within_limit (snd kv)) d
  | _ => true
  end.

Fixpoint repr_text (v : PyVal) : pystr :=
  match v with
  | PNone => u "None"
  | PBool true => u "True"
  | PBool false => u "False"
  | PInt z => int_repr z
  | PFloat f => float_str f
  | PStr s => repr_str s
  | PList l => u "[" ++ join (u ", ") (map repr_text l) ++ u "]"
  | PDict d =>
      u "{" ++ join (u ", ")
                 (map (fun kv => repr_str (fst kv) ++ u ": " ++ repr_text (snd kv)) d)
        ++ u "}"
  end.

Fixpoint json_text (v : PyVal) : pystr :=
  match v with
  | PNone => u "null"
  | PBool true => u "true"
  | PBool false => u "false"
  | PInt z => int_repr z
  | PFloat f => json_float f
  | PStr s => json_string s
  | PList l => u "[" ++ join (u ", ") (map json_text l) ++ u "]"
  | PDict d =>
      u "{" ++ join (u ", ")
                 (map (fun kv => json_string (fst kv) ++ u ": " ++ json_text (snd kv)) d)
        ++ u "}"
  end.

(** *** JSON values

    The values a jq program yields are JSON values: their strings are
    sequences of Unicode scalar values (no surrogates: the program's
    output is decoded from UTF-8), the keys of a mapping are distinct, no
    number is NaN (which is not equal to itself), and no integer has more
    digits than the interpreter converts (a number of jq is a binary64
    value, of 309 digits at most). *)

Definition is_scalar (c : N) : bool :=
  (c <? 1114112) && negb (is_high_surrogate c) && negb (is_low_surrogate c).

Fixpoint well_formed (v : PyVal) : bool :=
  match v with
  | PInt z => negb (exceeds_limit (digit_count (int_repr z)))
  | PFloat NaN => false
  | PStr s => forallb is_scalar s
  | PList l => forallb well_formed l
  | PDict d =>
      bool_decide (NoDup (map fst d))
      && forallb (fun kv => forallb is_scalar (fst kv) && well_formed (snd kv)) d
  | _ => true
  end.

(** The fuel [scan_once] needs on the text of a value. *)
Fixpoint size (v : PyVal) : nat :=
  match v with
  | PList l => S (foldr (fun x n => S (size x + n)) 0%nat l)
  | PDict d => S (foldr (fun kv n => S (size (snd kv) + n)) 0%nat d)
  | _ => 1
  end.

(** What may follow a value in the text [json_dumps] writes: nothing, a
    comma or a closing bracket. *)
Definition terminated (rest : pystr) : Prop :=
  match rest with
  | [] => True
  | c :: _ => c = 44 \/ c = 93 \/ c = 125
  end.

(** One member of an object, as [json_dumps] writes it. *)
Definition member (kv : pystr * PyVal) : pystr :=
  json_string (fst kv) ++ u ": " ++ json_text (snd kv).

Definition scan_cons (c : N) (r : option (pystr * pystr)) : option (pystr * pystr) :=
  match r with
  | Some (t, rest) => Some (c :: t, rest)
  | None => None
  end.

(** [scan_once] reads back the text of [v], given the fuel. *)
Definition round_trips (v : PyVal) : Prop :=
  well_formed v = true ->
  forall fuel rest, (size v <= fuel)%nat -> terminated rest ->
    scan_once fuel (json_text v ++ rest) = Ok (v, rest).

End Specification.

(** ** A world to run the loader in

    A runtime with three floats, the jq programs [.] and [.[]], and an
    SDK whose query returns a given iterator. *)

Inductive example_float : Type := f_half | f_neg_quarter | f_1e16.

Definition example_float_repr (x : example_float) : pystr :=
  match x with
  | f_half => u "0.5"
  | f_neg_quarter => u "-0.25"
  | f_1e16 => u "1e+16"
  end.

Definition example_float_of_literal (s : pystr) : pyfloat example_float :=
  if bool_decide (s = u "0.5") then Finite f_half
  else if bool_decide (s = u "-0.25") then Finite f_neg_quarter
  else if bool_decide (s = u "1e+16") then Finite f_1e16
  else Infinity false.

#[global] Instance example_runtime : PyRuntime := {|
  float := example_float;
  float_repr := example_float_repr;
  float_of_literal := example_float_of_literal;
  isprintable := fun c => 160 <? c;
  int_max_str_digits := 4300;
  int_max_str_digits_valid := or_intror (proj1 (Nat.leb_le 640 4300) eq_refl);
  float_repr_literal := fun x =>
    match x as y return is_float_literal (example_float_repr y) = true with
    | f_half => eq_refl
    | f_neg_quarter => eq_refl
    | f_1e16 => eq_refl
    end;
  float_of_repr := fun x =>
    match x as y return example_float_of_literal (example_float_repr y) = Finite y with
    | f_half => eq_refl
    | f_neg_quarter => eq_refl
    | f_1e16 => eq_refl
    end
|}.

(** [.[]]: the elements of an array, the values of an object. *)
Definition jq_values : JqProgram := {|
  program_string := u ".[]";
  input := fun v =>
    match v with
    | PList l => {| yielded := l; failure := None |}
    | PDict d => {| yielded := map snd d; failure := None |}
    | _ => {| yielded := [];
              failure := Some (ValueError ("Cannot iterate over " ++ type_name v)) |}
    end
|}.

(** [.]: the value itself. *)
Definition jq_identity : JqProgram := {|
  program_string := u ".";
  input := fun v => {| yielded := [v]; failure := None |}
|}.

Definition example_compile (schema : pystr) : Result JqProgram :=
  if bool_decide (schema = u ".[]") then Ok jq_values
  else if bool_decide (schema = u ".") then Ok jq_identity
  else Raise (ValueError "jq: error: compile error").

Definition example_sdk (items : Iter PyVal) : CosmosSDK := {|
  from_connection_string := fun _ => Ok 1%nat;
  get_database_client := fun _ _ => Ok 2%nat;
  get_container_client := fun _ _ => Ok 3%nat;
  query_items := fun _ _ _ => Ok items
|}.

Definition example_world (items : Iter PyVal) : World :=
  {| jq := Some example_compile; azure_cosmos := Some (example_sdk items) |}.

Definition world_without_jq : World :=
  {| jq := None; azure_cosmos := Some (example_sdk {| yielded := []; failure := None |}) |}.

Definition world_without_cosmos : World :=
  {| jq := Some example_compile; azure_cosmos := None |}.

Definition example_args (schema : pystr) (text_content : bool) : InitArgs := {|
  conn_str := u "AccountEndpoint=https://example.documents.azure.com:443/;AccountKey=k;";
  database := u "db";
  container := u "items";
  query := u "SELECT * FROM c";
  jq_schema := schema;
  enable_cross_partition_query := true;
  text_content := text_content
|}.

(** The object [AzureCosmosDBLoader(...)] gives in the example world. *)
Definition constructed (schema : pystr) (text_content : bool) : Loader :=
  match new (example_world {| yielded := []; failure := None |})
            (example_args schema text_content) with
  | Ok self => self
  | Raise _ => ∅
  end.

(** The same object after [loader.file_path = "cosmos"]. *)
Definition with_file_path (self : Loader) : Loader :=
  <["file_path" := AStr (u "cosmos")]> self.

(** The text of a value that [json.dumps] accepts. *)
Definition dumped (v : PyVal) : pystr :=
  match json_dumps v with
  | Ok text => text
  | Raise _ => []
  end.

(** The item of the specification's example, a second item, and a text
    that is not JSON. *)
Definition item_ab : PyVal :=
  PStr (dumped (PDict [(u "a", PStr (u "x")); (u "b", PStr (u "y"))])).

Definition nested_members : list (pystr * PyVal) :=
  [(u "k", PList [PFloat (Finite f_half); PBool true])].

Definition nested : PyVal := PDict nested_members.

Definition item_list : PyVal :=
  PStr (dumped (PList [PInt 1; PDict []; PNone; nested])).

Definition item_broken : PyVal := PStr (u "{oops").

Definition example_doc (text : pystr) (i : Z) : Document :=
  {| page_content := text; metadata := sample_metadata (AStr (u "cosmos")) i |}.

Definition example_docs : list Document :=
  [example_doc (u "x") 1; example_doc (u "y") 2; example_doc (u "1") 3;
   example_doc [] 4; example_doc [] 5; example_doc (dumped nested) 6].

Definition example_calls : list Call :=
  [CallFromConnectionString (AStr (conn_str (example_args (u ".[]") false)));
   CallGetDatabaseClient 1%nat (AStr (u "db"));
   CallGetContainerClient 2%nat (AStr (u "items"));
   CallQueryItems 3%nat (AStr (u "SELECT * FROM c")) (ABool true)].

(** More runs: the two items of the example, a query whose iterator
    breaks after its first item, and a query that yields an item already
    decoded (a mapping, not a text). *)
Definition two_items : Iter PyVal :=
  {| yielded := [item_ab; item_list]; failure := None |}.

Definition throttled : PyExn :=
  OtherError "CosmosHttpResponseError" "Request rate is large".

Definition interrupted_items : Iter PyVal :=
  {| yielded := [item_ab]; failure := Some throttled |}.

Definition decoded_items : Iter PyVal :=
  {| yielded := [PDict [(u "a", PStr (u "x"))]]; failure := None |}.


(** * Facts about the codec *)

(** ** Hexadecimal *)

Lemma hex_val_digit n : n < 16 -> hex_val (hex_digit n) = Some n.
Proof.
  intros Hn. unfold hex_val, hex_digit, is_digit.
  destruct (N.ltb_spec n 10).
  - replace ((48 <=? 48 + n) && (48 + n <=? 57)) with true.
    + f_equal. lia.
    + symmetry. apply andb_true_iff. split; apply N.leb_le; lia.
  - replace ((48 <=? 87 + n) && (87 + n <=? 57)) with false.
    + replace ((97 <=? 87 + n) && (87 + n <=? 102)) with true.
      * f_equal. lia.
      * symmetry. apply andb_true_iff. split; apply N.leb_le; lia.
    + symmetry. apply andb_false_iff. right. apply N.leb_gt. lia.
Qed.

Lemma hex4_fixed n :
  n < 65536 ->
  exists a b c d, hex_fixed 4 n = [a; b; c; d] /\ hex4 a b c d = Some n.
Proof.
  intros Hn. do 4 eexists. split; [reflexivity|].
  pose proof (N.div_mod n 16 ltac:(lia)) as H1.
  pose proof (N.div_mod (n / 16) 16 ltac:(lia)) as H2.
  pose proof (N.div_mod (n / 16 / 16) 16 ltac:(lia)) as H3.
  pose proof (N.div_mod (n / 16 / 16 / 16) 16 ltac:(lia)) as H4.
  pose proof (N.mod_lt n 16 ltac:(lia)).
  pose proof (N.mod_lt (n / 16) 16 ltac:(lia)).
  pose proof (N.mod_lt (n / 16 / 16) 16 ltac:(lia)).
  pose proof (N.mod_lt (n / 16 / 16 / 16) 16 ltac:(lia)).
  unfold hex4. rewrite !hex_val_digit by done. f_equal.
  generalize dependent (n mod 16). generalize dependent (n / 16 mod 16).
  generalize dependent (n / 16 / 16 mod 16).
  generalize dependent (n / 16 / 16 / 16 mod 16).
  generalize dependent (n / 16 / 16 / 16 / 16).
  generalize dependent (n / 16 / 16 / 16).
  generalize dependent (n / 16 / 16). generalize dependent (n / 16).
  intros. lia.
Qed.

(** ** Decimal *)

Lemma digits_uint_digits d : digits_uint (uint_digits d) = d.
Proof. induction d; simpl; unfold digits_uint in *; simpl; by f_equal. Qed.

Lemma uint_digits_all d : forallb is_digit (uint_digits d) = true.
Proof. induction d; simpl; auto. Qed.

Lemma nzhead_head d : match nzhead d with D0 _ => False | _ => True end.
Proof. induction d; simpl; auto. Qed.

(** The decimal of a positive number: a digit that is not [0], then digits. *)
Lemma pos_digits p :
  exists c ds, uint_digits (Pos.to_uint p) = c :: ds /\
               is_digit c = true /\ c <> 48 /\ forallb is_digit ds = true.
Proof.
  pose proof (DecimalPos.Unsigned.to_uint_nonzero p) as Hnz.
  pose proof (DecimalPos.Unsigned.to_uint_nonnil p) as Hnn.
  assert (Pos.to_uint p = unorm (Pos.to_uint p)) as Hnorm.
  { rewrite <- (DecimalPos.Unsigned.to_of (Pos.to_uint p)).
    by rewrite DecimalPos.Unsigned.of_to. }
  pose proof (uint_digits_all (Pos.to_uint p)) as Hall.
  pose proof (nzhead_head (Pos.to_uint p)) as Hhead.
  unfold unorm in Hnorm.
  destruct (nzhead (Pos.to_uint p)) eqn:Hnzh; try done;
    rewrite Hnorm in Hall |- *; simpl in Hall |- *;
    do 2 eexists; (split; [reflexivity|]); repeat split; try done.
Qed.

Lemma parse_int_repr z : parse_int (int_repr z) = z.
Proof.
  unfold int_repr, parse_int. rewrite <- (DecimalZ.of_to z) at 2.
  destruct z as [|p|p]; simpl Z.to_int.
  - reflexivity.
  - destruct (pos_digits p) as (c & ds & Hp & Hc & _ & _).
    rewrite Hp, <- Hp, digits_uint_digits.
    destruct (N.eqb_spec c 45) as [->|]; [discriminate|done].
  - simpl. by rewrite digits_uint_digits.
Qed.

(** ** Numbers *)

Lemma span_digits_all ds rest :
  forallb is_digit ds = true -> terminated rest ->
  span_digits (ds ++ rest) = (ds, rest).
Proof.
  intros Hds Hrest. induction ds as [|c ds IH]; simpl in *.
  - destruct rest as [|c rest]; [done|]. simpl.
    destruct Hrest as [->|[->| ->]]; done.
  - apply andb_true_iff in Hds as [-> Hds]. by rewrite IH.
Qed.

Lemma span_digits_app s d r rest :
  span_digits s = (d, r) -> terminated rest ->
  span_digits (s ++ rest) = (d, r ++ rest).
Proof.
  revert d r. induction s as [|c s IH]; intros d r; simpl.
  - intros [= <- <-] Hrest. destruct rest as [|c rest]; [done|]. simpl.
    destruct Hrest as [->|[->| ->]]; done.
  - destruct (is_digit c).
    + destruct (span_digits s) as [d' r'] eqn:Hs. intros [= <- <-] Hrest.
      by rewrite (IH d' r').
    + by intros [= <- <-] _.
Qed.

Lemma span_digits_split s d r : span_digits s = (d, r) -> s = d ++ r.
Proof.
  revert d r. induction s as [|c s IH]; intros d r; simpl.
  - by intros [= <- <-].
  - destruct (is_digit c).
    + destruct (span_digits s) as [d' r'] eqn:Hs. intros [= <- <-].
      simpl. f_equal. by apply IH.
    + by intros [= <- <-].
Qed.

Lemma terminated_head c rest :
  terminated (c :: rest) -> c = 44 \/ c = 93 \/ c = 125.
Proof. done. Qed.

Lemma match_int_app s i r rest :
  match_int s = Some (i, r) -> terminated rest ->
  match_int (s ++ rest) = Some (i, r ++ rest).
Proof.
  intros Hs Hrest. unfold match_int in *.
  assert (forall sign s', 
    match s' with
    | c :: r' =>
        if c =? 48 then Some (sign ++ [48], r')
        else if is_digit c then
          let (d, r'') := span_digits r' in Some (sign ++ c :: d, r'')
        else None
    | [] => None
    end = Some (i, r) ->
    match s' ++ rest with
    | c :: r' =>
        if c =? 48 then Some (sign ++ [48], r')
        else if is_digit c then
          let (d, r'') := span_digits r' in Some (sign ++ c :: d, r'')
        else None
    | [] => None
    end = Some (i, r ++ rest)) as Hbody.
  { intros sign [|c s']; [done|]. simpl.
    destruct (c =? 48); [by intros [= <- <-]|].
    destruct (is_digit c); [|done].
    destruct (span_digits s') as [d r''] eqn:Hsp. intros [= <- <-].
    by rewrite (span_digits_app _ _ _ _ Hsp Hrest). }
  destruct s as [|c s]; [done|]. simpl in *.
  destruct (c =? 45).
  - by apply Hbody.
  - by apply (Hbody [] (c :: s)).
Qed.

Lemma match_frac_app s rest :
  terminated rest ->
  match_frac (s ++ rest) =
  match match_frac s with
  | Some (f, r) => Some (f, r ++ rest)
  | None => None
  end.
Proof.
  intros Hrest. unfold match_frac. destruct s as [|c s]; simpl.
  - destruct rest as [|c rest]; [done|].
    destruct Hrest as [->|[->| ->]]; done.
  - destruct (c =? 46); [|done].
    destruct (span_digits s) as [d r] eqn:Hsp.
    rewrite (span_digits_app _ _ _ _ Hsp Hrest). by destruct d.
Qed.

Lemma match_exp_app s rest :
  terminated rest ->
  match_exp (s ++ rest) =
  match match_exp s with
  | Some (e, r) => Some (e, r ++ rest)
  | None => None
  end.
Proof.
  intros Hrest. unfold match_exp. destruct s as [|c s]; simpl.
  - destruct rest as [|c rest]; [done|].
    destruct Hrest as [->|[->| ->]]; done.
  - destruct ((c =? 101) || (c =? 69)); [|done].
    destruct s as [|x s]; simpl.
    + destruct rest as [|c' rest]; [done|].
      destruct Hrest as [->|[->| ->]]; done.
    + destruct ((x =? 45) || (x =? 43)).
      * destruct (span_digits s) as [d r] eqn:Hsp.
        rewrite (span_digits_app _ _ _ _ Hsp Hrest). by destruct d.
      * destruct (span_digits (x :: s)) as [d r] eqn:Hsp.
        change (x :: s ++ rest) with ((x :: s) ++ rest).
        rewrite (span_digits_app _ _ _ _ Hsp Hrest). by destruct d.
Qed.

Lemma match_number_app s t b r rest :
  match_number s = Some (t, b, r) -> terminated rest ->
  match_number (s ++ rest) = Some (t, b, r ++ rest).
Proof.
  intros Hs Hrest. unfold match_number in *.
  destruct (match_int s) as [[i r0]|] eqn:Hi; [|done].
  rewrite (match_int_app _ _ _ _ Hi Hrest).
  rewrite (match_frac_app _ _ Hrest).
  destruct (match_frac r0) as [[f r1]|].
  - rewrite (match_exp_app _ _ Hrest).
    destruct (match_exp r1) as [[e r2]|]; by injection Hs as <- <- <-.
  - rewrite (match_exp_app _ _ Hrest).
    destruct (match_exp r0) as [[e r2]|]; by injection Hs as <- <- <-.
Qed.

Lemma match_int_split s i r : match_int s = Some (i, r) -> s = i ++ r.
Proof.
  unfold match_int.
  assert (forall sign s',
    match s' with
    | c :: r' =>
        if c =? 48 then Some (sign ++ [48], r')
        else if is_digit c then
          let (d, r'') := span_digits r' in Some (sign ++ c :: d, r'')
        else None
    | [] => None
    end = Some (i, r) -> sign ++ s' = i ++ r) as Hbody.
  { intros sign [|c s']; [done|].
    destruct (N.eqb_spec c 48) as [->|].
    - intros [= <- <-]. by rewrite <- app_assoc.
    - destruct (is_digit c); [|done].
      destruct (span_digits s') as [d r''] eqn:Hsp. intros [= <- <-].
      rewrite <- app_assoc. simpl. by rewrite (span_digits_split _ _ _ Hsp). }
  destruct s as [|c s]; [done|].
  destruct (N.eqb_spec c 45) as [->|].
  - intros H. by apply (Hbody [45]) in H.
  - intros H. by apply (Hbody [] (c :: s)) in H.
Qed.

Lemma match_frac_split s f r : match_frac s = Some (f, r) -> s = f ++ r.
Proof.
  unfold match_frac. destruct s as [|c s]; [done|].
  destruct (c =? 46); [|done].
  destruct (span_digits s) as [d r'] eqn:Hsp.
  destruct d; [done|]. intros [= <- <-]. simpl.
  by rewrite (span_digits_split _ _ _ Hsp).
Qed.

Lemma match_exp_split s e r : match_exp s = Some (e, r) -> s = e ++ r.
Proof.
  unfold match_exp. destruct s as [|c s]; [done|].
  destruct ((c =? 101) || (c =? 69)); [|done].
  destruct s as [|x s].
  - done.
  - destruct ((x =? 45) || (x =? 43)).
    + destruct (span_digits s) as [d r'] eqn:Hsp.
      destruct d; [done|]. intros [= <- <-]. simpl.
      by rewrite (span_digits_split _ _ _ Hsp).
    + destruct (span_digits (x :: s)) as [d r'] eqn:Hsp.
      destruct d; [done|]. intros [= <- <-]. simpl.
      by rewrite (span_digits_split _ _ _ Hsp).
Qed.

Lemma match_number_split s t b r : match_number s = Some (t, b, r) -> s = t ++ r.
Proof.
  unfold match_number.
  destruct (match_int s) as [[i r0]|] eqn:Hi; [|done].
  apply match_int_split in Hi as ->.
  destruct (match_frac r0) as [[f r1]|] eqn:Hf.
  - apply match_frac_split in Hf as ->.
    destruct (match_exp r1) as [[e r2]|] eqn:He.
    + apply match_exp_split in He as ->. intros [= <- <- <-].
      by rewrite <- !app_assoc.
    + intros [= <- <- <-]. by rewrite app_nil_r, <- !app_assoc.
  - destruct (match_exp r0) as [[e r2]|] eqn:He.
    + apply match_exp_split in He as ->. intros [= <- <- <-].
      simpl. by rewrite <- app_assoc.
    + intros [= <- <- <-]. by rewrite app_nil_r.
Qed.

(** A number starts with a digit, or with a minus sign and a digit. *)
Lemma match_number_head s t b r :
  match_number s = Some (t, b, r) ->
  exists c s', s = c :: s' /\
    (is_digit c = true \/ c = 45 /\ exists c' s'', s' = c' :: s'' /\ is_digit c' = true).
Proof.
  unfold match_number. destruct (match_int s) as [[i r0]|] eqn:Hi; [|done].
  intros _. unfold match_int in Hi. destruct s as [|c s]; [done|].
  exists c, s. split; [done|]. simpl in Hi.
  destruct (N.eqb_spec c 45) as [->|].
  - right. split; [done|]. destruct s as [|c' s]; [done|].
    exists c', s. split; [done|].
    destruct (N.eqb_spec c' 48) as [->|]; [done|]. by destruct (is_digit c').
  - left. destruct (N.eqb_spec c 48) as [->|]; [done|]. by destruct (is_digit c).
Qed.

Lemma match_number_int z : match_number (int_repr z) = Some (int_repr z, false, []).
Proof.
  assert (forall p sign, (sign = [] \/ sign = [45]) ->
    match_number (sign ++ uint_digits (Pos.to_uint p))
    = Some (sign ++ uint_digits (Pos.to_uint p), false, [])) as Hpos.
  { intros p sign Hsign. destruct (pos_digits p) as (c & ds & -> & Hc & Hc0 & Hds).
    assert (match_int (sign ++ c :: ds) = Some (sign ++ c :: ds, [])) as Hi.
    { unfold match_int.
      assert ((c =? 45) = false) as H45.
      { apply N.eqb_neq. intros ->. done. }
      assert ((c =? 48) = false) as H48 by by apply N.eqb_neq.
      pose proof (span_digits_all ds [] Hds I) as Hsp. rewrite app_nil_r in Hsp.
      destruct Hsign as [-> | ->]; simpl; by rewrite ?H45, H48, Hc, Hsp. }
    unfold match_number. rewrite Hi. simpl. by rewrite app_nil_r. }
  unfold int_repr. destruct z as [|p|p]; simpl Z.to_int.
  - reflexivity.
  - apply (Hpos p []). by left.
  - apply (Hpos p [45]). by right.
Qed.

(** ** Strings *)

Lemma lor_shiftl_small a b n : b < 2 ^ n -> N.lor (N.shiftl a n) b = a * 2 ^ n + b.
Proof.
  intros Hb.
  assert (N.land (N.shiftl a n) b = 0) as Hdisj.
  { rewrite <- (N.mod_small b (2 ^ n)) by done.
    rewrite <- N.land_ones, (N.land_comm b), N.land_assoc, N.land_ones.
    rewrite N.shiftl_mul_pow2, N.Div0.mod_mul. apply N.land_0_l. }
  rewrite <- N.lxor_lor, <- N.add_nocarry_lxor by done.
  by rewrite N.shiftl_mul_pow2.
Qed.

Lemma land_low a b : b < 1024 -> N.land (a * 1024 + b) 1023 = b.
Proof.
  intros Hb. change 1023 with (N.ones 10). rewrite N.land_ones.
  change (2 ^ 10) with 1024.
  rewrite N.add_comm, N.Div0.mod_add. by apply N.mod_small.
Qed.

Lemma surrogate_pair c :
  65536 <= c -> c < 1114112 ->
  let v := c - 65536 in
  let hi := N.lor 55296 (N.land (N.shiftr v 10) 1023) in
  let lo := N.lor 56320 (N.land v 1023) in
  hi < 65536 /\ lo < 65536 /\ is_high_surrogate hi = true /\
  is_low_surrogate lo = true /\ join_surrogates hi lo = c.
Proof.
  intros Hlo Hhi v hi lo.
  assert (v < 1048576) as Hv by (unfold v; lia).
  pose proof (N.div_mod v 1024 ltac:(lia)) as Hdm.
  pose proof (N.mod_lt v 1024 ltac:(lia)) as Hm.
  assert (v / 1024 < 1024) as Hd.
  { apply N.Div0.div_lt_upper_bound. lia. }
  assert (N.land (N.shiftr v 10) 1023 = v / 1024) as Hx.
  { rewrite N.shiftr_div_pow2. change 1023 with (N.ones 10).
    rewrite N.land_ones. by apply N.mod_small. }
  assert (N.land v 1023 = v mod 1024) as Hy.
  { change 1023 with (N.ones 10). by rewrite N.land_ones. }
  assert (hi = 55296 + v / 1024) as Hhi_eq.
  { unfold hi. rewrite Hx. change 55296 with (N.shiftl 54 10).
    rewrite lor_shiftl_small by done. reflexivity. }
  assert (lo = 56320 + v mod 1024) as Hlo_eq.
  { unfold lo. rewrite Hy. change 56320 with (N.shiftl 55 10).
    rewrite lor_shiftl_small by done. reflexivity. }
  assert (join_surrogates hi lo = c) as Hjoin.
  { unfold join_surrogates. rewrite Hhi_eq, Hlo_eq.
    change 55296 with (54 * 1024). change 56320 with (55 * 1024).
    rewrite !land_low by done. rewrite lor_shiftl_small by done.
    change (2 ^ 10) with 1024. unfold v in *.
    generalize dependent ((c - 65536) mod 1024).
    generalize dependent ((c - 65536) / 1024). intros. lia. }
  unfold is_high_surrogate, is_low_surrogate.
  rewrite Hhi_eq, Hlo_eq in *.
  repeat split; try lia; try done.
  - apply andb_true_iff. split; apply N.leb_le; lia.
  - apply andb_true_iff. split; apply N.leb_le; lia.
Qed.

Lemma scanstring_literal c r :
  c <> 34 -> c <> 92 -> 32 <= c ->
  scanstring (c :: r) = scan_cons c (scanstring r).
Proof.
  intros H34%N.eqb_neq H92%N.eqb_neq H32%N.ltb_ge. simpl.
  by rewrite H34, H92, H32.
Qed.

Lemma scanstring_short e c r :
  e <> 117 -> unescape e = Some c ->
  scanstring (92 :: e :: r) = scan_cons c (scanstring r).
Proof.
  intros He%N.eqb_neq Hc. simpl. by rewrite He, Hc.
Qed.

Lemma scanstring_u4 h1 h2 h3 h4 c r :
  hex4 h1 h2 h3 h4 = Some c -> is_high_surrogate c = false ->
  scanstring (92 :: 117 :: h1 :: h2 :: h3 :: h4 :: r) = scan_cons c (scanstring r).
Proof. intros Hc Hs. simpl. by rewrite Hc, Hs. Qed.

Lemma scanstring_u4_pair h1 h2 h3 h4 l1 l2 l3 l4 hi lo r :
  hex4 h1 h2 h3 h4 = Some hi -> is_high_surrogate hi = true ->
  hex4 l1 l2 l3 l4 = Some lo -> is_low_surrogate lo = true ->
  scanstring (92 :: 117 :: h1 :: h2 :: h3 :: h4 :: 92 :: 117 :: l1 :: l2 :: l3 :: l4 :: r)
  = scan_cons (join_surrogates hi lo) (scanstring r).
Proof. intros Hhi Hh Hlo Hl. simpl. by rewrite Hhi, Hh, Hlo, Hl. Qed.

Lemma scanstring_escape c r :
  is_scalar c = true ->
  scanstring (json_escape_char c ++ r) = scan_cons c (scanstring r).
Proof.
  unfold is_scalar. intros [[Hmax%N.ltb_lt Hhi%negb_true_iff]%andb_true_iff
                             Hlo%negb_true_iff]%andb_true_iff.
  unfold json_escape_char.
  destruct (N.eqb_spec c 34) as [->|H34]; [by apply scanstring_short|].
  destruct (N.eqb_spec c 92) as [->|H92]; [by apply scanstring_short|].
  destruct (N.eqb_spec c 10) as [->|H10]; [by apply scanstring_short|].
  destruct (N.eqb_spec c 13) as [->|H13]; [by apply scanstring_short|].
  destruct (N.eqb_spec c 9) as [->|H9]; [by apply scanstring_short|].
  destruct (N.eqb_spec c 8) as [->|H8]; [by apply scanstring_short|].
  destruct (N.eqb_spec c 12) as [->|H12]; [by apply scanstring_short|].
  destruct ((32 <=? c) && (c <=? 126)) eqn:Hprint.
  { apply andb_true_iff in Hprint as [H32%N.leb_le _]. by apply scanstring_literal. }
  destruct (N.ltb_spec c 65536) as [Hbmp|Hastral].
  - destruct (hex4_fixed c Hbmp) as (h1 & h2 & h3 & h4 & -> & Hhex).
    by apply scanstring_u4.
  - destruct (surrogate_pair c Hastral Hmax) as (H1 & H2 & H3 & H4 & H5).
    destruct (hex4_fixed _ H1) as (h1 & h2 & h3 & h4 & -> & Hhex1).
    destruct (hex4_fixed _ H2) as (l1 & l2 & l3 & l4 & -> & Hhex2).
    etrans; [exact (scanstring_u4_pair h1 h2 h3 h4 l1 l2 l3 l4 _ _ r Hhex1 H3 Hhex2 H4)|].
    by rewrite H5.
Qed.

Lemma scanstring_json_string s rest :
  forallb is_scalar s = true ->
  scanstring (flat_map json_escape_char s ++ 34 :: rest) = Some (s, rest).
Proof.
  intros Hs. induction s as [|c s IH]; [done|].
  simpl in Hs. apply andb_true_iff in Hs as [Hc Hs]. simpl flat_map.
  rewrite <- app_assoc, scanstring_escape by done. by rewrite IH.
Qed.

(** ** Reading back what [json_dumps] writes *)

Section RoundTrip.
Context {RT : PyRuntime}.
Local Arguments u : simpl never.

Lemma PyVal_nested_ind (P : PyVal -> Prop) :
  P PNone -> (forall b, P (PBool b)) -> (forall z, P (PInt z)) ->
  (forall f, P (PFloat f)) -> (forall s, P (PStr s)) ->
  (forall l, Forall P l -> P (PList l)) ->
  (forall d, Forall (fun kv => P (snd kv)) d -> P (PDict d)) ->
  forall v, P v.
Proof.
  intros HN HB HI HF HS HL HD.
  fix IH 1. intros [| b | z | f | s | l | d].
  - exact HN.
  - exact (HB b).
  - exact (HI z).
  - exact (HF f).
  - exact (HS s).
  - apply HL. revert l. fix IHl 1. intros [|x l]; constructor; [apply IH|apply IHl].
  - apply HD. revert d. fix IHd 1.
    intros [|[k x] d]; constructor; [apply IH|apply IHd].
Qed.

Lemma strip_prefix_app p s : strip_prefix p (p ++ s) = Some s.
Proof.
  unfold strip_prefix. rewrite take_app_length, drop_app_length.
  by rewrite bool_decide_eq_true_2.
Qed.

Lemma strip_prefix_head a p c s : a <> c -> strip_prefix (a :: p) (c :: s) = None.
Proof.
  intros Hne. unfold strip_prefix. simpl.
  rewrite bool_decide_eq_false_2; [done|]. by intros [= -> _].
Qed.

Lemma strip_prefix_second a b p c s :
  b <> c -> strip_prefix (a :: b :: p) (a :: c :: s) = None.
Proof.
  intros Hne. unfold strip_prefix. simpl.
  rewrite bool_decide_eq_false_2; [done|]. by intros [= -> _].
Qed.

Lemma is_digit_range c : is_digit c = true -> 48 <= c <= 57.
Proof.
  unfold is_digit. intros [?%N.leb_le ?%N.leb_le]%andb_true_iff. lia.
Qed.

Lemma scan_once_number fuel s t b r :
  match_number s = Some (t, b, r) -> scan_once (S fuel) s = scan_number s.
Proof.
  intros (c & s' & -> & Hhead)%match_number_head. simpl scan_once.
  assert (c = 45 \/ 48 <= c <= 57) as Hc.
  { destruct Hhead as [?%is_digit_range|[-> _]]; auto. }
  assert ((c =? 34) = false) as -> by (apply N.eqb_neq; lia).
  assert ((c =? 123) = false) as -> by (apply N.eqb_neq; lia).
  assert ((c =? 91) = false) as -> by (apply N.eqb_neq; lia).
  change (u "null") with (110 :: u "ull"). change (u "true") with (116 :: u "rue").
  change (u "false") with (102 :: u "alse"). change (u "NaN") with (78 :: u "aN").
  change (u "Infinity") with (73 :: u "nfinity").
  change (u "-Infinity") with (45 :: 73 :: u "nfinity").
  rewrite 5!strip_prefix_head by lia.
  destruct Hhead as [Hd%is_digit_range|[-> (c' & s'' & -> & Hd%is_digit_range)]].
  - rewrite strip_prefix_head; [done|lia].
  - rewrite strip_prefix_second; [done|lia].
Qed.

Lemma scan_once_int fuel z rest :
  exceeds_limit (digit_count (int_repr z)) = false -> terminated rest ->
  scan_once (S fuel) (int_repr z ++ rest) = Ok (PInt z, rest).
Proof.
  intros Hlimit Hrest.
  pose proof (match_number_app _ _ _ _ rest (match_number_int z) Hrest) as Hm.
  rewrite (scan_once_number _ _ _ _ _ Hm). unfold scan_number, int_of_str.
  by rewrite Hm, Hlimit, parse_int_repr.
Qed.

Lemma float_repr_number x :
  match_number (float_repr x) = Some (float_repr x, true, []).
Proof.
  pose proof (float_repr_literal x) as H. unfold is_float_literal in H.
  destruct (match_number (float_repr x)) as [[[t b] r]|] eqn:Hm; [|done].
  destruct r; [|done]. subst b.
  apply match_number_split in Hm as Hs. rewrite app_nil_r in Hs. by rewrite <- Hs.
Qed.

Lemma scan_once_float fuel x rest :
  terminated rest ->
  scan_once (S fuel) (float_repr x ++ rest) = Ok (PFloat (Finite x), rest).
Proof.
  intros Hrest.
  pose proof (match_number_app _ _ _ _ rest (float_repr_number x) Hrest) as Hm.
  rewrite (scan_once_number _ _ _ _ _ Hm). unfold scan_number.
  by rewrite Hm, float_of_repr.
Qed.

(** The text of a value starts with a character that is not a blank. *)
Lemma json_text_head v :
  exists c s, json_text v = c :: s /\ is_ws c = false /\ c <> 93.
Proof.
  destruct v as [| [] | z | [x| [] |] | s | l | d]; simpl; try by do 2 eexists.
  - pose proof (match_number_int z) as (c & s & -> & Hc)%match_number_head.
    exists c, s. split; [done|].
    destruct Hc as [?%is_digit_range|[-> _]]; [|done].
    split; [|lia].
    unfold is_ws. repeat (apply orb_false_iff; split); apply N.eqb_neq; lia.
  - pose proof (float_repr_number x) as (c & s & -> & Hc)%match_number_head.
    exists c, s. split; [done|].
    destruct Hc as [?%is_digit_range|[-> _]]; [|done].
    split; [|lia].
    unfold is_ws. repeat (apply orb_false_iff; split); apply N.eqb_neq; lia.
Qed.

Lemma skip_ws_dumps v rest : skip_ws (json_text v ++ rest) = json_text v ++ rest.
Proof.
  destruct (json_text_head v) as (c & s & -> & Hc & _). simpl. by rewrite Hc.
Qed.

Lemma skip_ws_join xs rest :
  skip_ws (join (u ", ") (map json_text xs) ++ 93 :: rest)
  = join (u ", ") (map json_text xs) ++ 93 :: rest.
Proof.
  destruct xs as [|x xs]; [done|]. simpl.
  destruct (map json_text xs); [apply skip_ws_dumps|].
  rewrite <- app_assoc. apply skip_ws_dumps.
Qed.

Lemma scan_items_dumps xs :
  Forall round_trips xs -> forallb well_formed xs = true -> xs <> [] ->
  forall fuel acc rest,
    (foldr (fun x n => S (size x + n)) 0 xs <= fuel)%nat ->
    scan_items fuel (join (u ", ") (map json_text xs) ++ 93 :: rest) acc
    = Ok (PList (acc ++ xs), rest).
Proof.
  induction 1 as [|x xs Hx Hxs IH]; [done|]. intros Hwf _ fuel acc rest Hfuel.
  simpl in Hwf. apply andb_true_iff in Hwf as [Hwfx Hwfxs].
  simpl in Hfuel. destruct fuel as [|fuel]; [lia|].
  destruct xs as [|y ys].
  - simpl. rewrite (Hx Hwfx fuel (93 :: rest)); [done|lia|]. simpl. auto.
  - change (join (u ", ") (map json_text (x :: y :: ys)))
      with (json_text x ++ [44; 32] ++ join (u ", ") (map json_text (y :: ys))).
    rewrite <- !app_assoc. cbn [scan_items].
    rewrite (Hx Hwfx fuel); [|lia|simpl; auto].
    change (skip_ws ([44; 32] ++ ?t)) with (44 :: 32 :: t).
    change (44 =? 93) with false. change (44 =? 44) with true. cbv iota.
    change (skip_ws (32 :: ?t)) with (skip_ws t).
    rewrite skip_ws_join.
    rewrite IH; [by rewrite <- app_assoc|done|done|lia].
Qed.
Lemma dict_setitem_fresh k v (acc : list (pystr * PyVal)) :
  k ∉ map fst acc -> dict_setitem k v acc = acc ++ [(k, v)].
Proof.
  induction acc as [|[k' v'] acc IH]; simpl; [done|].
  intros Hk. apply not_elem_of_cons in Hk as [Hne Hk].
  rewrite bool_decide_eq_false_2 by done. by rewrite IH.
Qed.

Lemma skip_ws_members d rest :
  d <> [] ->
  skip_ws (join (u ", ") (map member d) ++ 125 :: rest)
  = join (u ", ") (map member d) ++ 125 :: rest.
Proof.
  destruct d as [|kv d]; [done|]. intros _. simpl.
  by destruct (map member d).
Qed.

Lemma scan_members_dumps d :
  Forall (fun kv => round_trips (snd kv)) d ->
  forallb (fun kv => forallb is_scalar (fst kv) && well_formed (snd kv)) d = true ->
  d <> [] ->
  forall fuel acc rest,
    NoDup (map fst (acc ++ d)) ->
    (foldr (fun kv n => S (size (snd kv) + n)) 0 d <= fuel)%nat ->
    scan_members fuel (join (u ", ") (map member d) ++ 125 :: rest) acc
    = Ok (PDict (acc ++ d), rest).
Proof.
  induction 1 as [|[k v] d Hv Hd IH]; [done|]. intros Hwf _ fuel acc rest Hnd Hfuel.
  simpl in Hwf. apply andb_true_iff in Hwf as [[Hk Hwfv]%andb_true_iff Hwfd].
  simpl in Hfuel, Hv. destruct fuel as [|fuel]; [lia|].
  assert (dict_setitem k v acc = acc ++ [(k, v)]) as Hset.
  { apply dict_setitem_fresh. rewrite map_app in Hnd.
    apply NoDup_app in Hnd as (_ & Hnd & _). intros Hin.
    apply (Hnd k Hin). simpl. left. }
  assert (forall tail, terminated tail -> skip_ws tail = tail ->
    scan_members (S fuel) (member (k, v) ++ tail) acc =
    match tail with
    | c' :: r4 =>
        if c' =? 125 then Ok (PDict (acc ++ [(k, v)]), r4)
        else if c' =? 44 then scan_members fuel (skip_ws r4) (acc ++ [(k, v)])
        else Raise JSONDecodeError
    | [] => Raise JSONDecodeError
    end) as Hstep.
  { intros tail Htail Hws. unfold member, json_string. simpl fst. simpl snd.
    change (u ": ") with [58; 32]. cbn [scan_members app].
    change (34 =? 34) with true. cbv iota.
    rewrite <- !app_assoc. cbn [app].
    rewrite scanstring_json_string by done.
    change (skip_ws (58 :: 32 :: ?t)) with (58 :: 32 :: t).
    change (58 =? 58) with true. cbv iota.
    change (skip_ws (32 :: ?t)) with (skip_ws t).
    rewrite skip_ws_dumps, (Hv Hwfv fuel tail), Hws, Hset; [done|lia|done]. }
  destruct d as [|kv' d'].
  - change (join (u ", ") (map member [(k, v)])) with (member (k, v)).
    rewrite Hstep; [done| |done]. simpl; auto.
  - change (join (u ", ") (map member ((k, v) :: kv' :: d')))
      with (member (k, v) ++ [44; 32] ++ join (u ", ") (map member (kv' :: d'))).
    rewrite <- !app_assoc. rewrite Hstep; [| |done].
    2:{ simpl. auto. }
    cbn [app]. change (44 =? 125) with false. change (44 =? 44) with true. cbv iota.
    change (skip_ws (32 :: ?t)) with (skip_ws t).
    rewrite skip_ws_members by done.
    rewrite IH; [by rewrite <- app_assoc|done|done| |lia].
    by rewrite <- app_assoc.
Qed.

Lemma scan_once_dumps v : round_trips v.
Proof.
  induction v as [| b | z | f | s | l IH | d IH] using PyVal_nested_ind;
    intros Hwf fuel rest Hfuel Hrest; (destruct fuel as [|fuel]; [simpl in Hfuel; lia|]).
  - done.
  - by destruct b.
  - simpl in Hwf. apply negb_true_iff in Hwf. by apply scan_once_int.
  - destruct f as [x| [] |]; [by apply scan_once_float|done|done|done].
  - simpl in Hwf. unfold json_text, json_string. cbn [scan_once app].
    change (34 =? 34) with true. cbv iota.
    rewrite <- app_assoc. cbn [app]. by rewrite scanstring_json_string.
  - cbn [json_text]. change (u "[") with [91]. change (u "]") with [93].
    cbn [scan_once app]. change (91 =? 34) with false. change (91 =? 123) with false.
    change (91 =? 91) with true. cbv iota. rewrite <- app_assoc. cbn [app].
    destruct l as [|x l]; [done|].
    rewrite skip_ws_join.
    assert (exists c t, join (u ", ") (map json_text (x :: l)) ++ 93 :: rest = c :: t
                        /\ (c =? 93) = false) as (c & t & Heq & Hc).
    { destruct (json_text_head x) as (c & t & Hx & _ & Hc). exists c.
      simpl. rewrite Hx. destruct (map json_text l); simpl; eexists;
        (split; [reflexivity|]); by apply N.eqb_neq. }
    rewrite Heq, Hc, <- Heq.
    apply (scan_items_dumps (x :: l) IH Hwf ltac:(done) fuel [] rest).
    by apply le_S_n.
  - cbn [json_text]. change (u "{") with [123]. change (u "}") with [125].
    cbn [scan_once app]. change (123 =? 34) with false. change (123 =? 123) with true.
    cbv iota. rewrite <- app_assoc. cbn [app].
    destruct d as [|kv d]; [done|].
    change (map (fun kv0 => json_string (fst kv0) ++ u ": " ++ json_text (snd kv0)))
      with (map member).
    rewrite skip_ws_members by done.
    assert (exists t, join (u ", ") (map member (kv :: d)) ++ 125 :: rest = 34 :: t)
      as (t & Heq).
    { simpl. destruct (map member d); by eexists. }
    rewrite Heq. change (34 =? 125) with false. cbv iota. rewrite <- Heq.
    simpl in Hwf. apply andb_true_iff in Hwf as [Hnd%bool_decide_eq_true Hwf].
    apply (scan_members_dumps (kv :: d) IH Hwf ltac:(done) fuel [] rest Hnd).
    by apply le_S_n.
Qed.
Lemma join_length_bound {A} (m : A -> nat) (f : A -> pystr) sep xs :
  Forall (fun x => (m x <= length (f x))%nat) xs -> (1 <= length sep)%nat ->
  (foldr (fun x n => S (m x + n)) 0 xs <= S (length (join sep (map f xs))))%nat.
Proof.
  intros Hxs Hsep. induction Hxs as [|x xs Hx Hxs IH]; simpl; [lia|].
  destruct xs as [|y ys]; simpl in *; [lia|].
  rewrite !length_app. lia.
Qed.

Lemma size_le_length v : (size v <= length (json_text v))%nat.
Proof.
  induction v as [| b | z | f | s | l IH | d IH] using PyVal_nested_ind.
  - simpl. lia.
  - destruct b; simpl; lia.
  - destruct (json_text_head (PInt z)) as (c & t & -> & _). simpl. lia.
  - destruct (json_text_head (PFloat f)) as (c & t & -> & _). simpl. lia.
  - simpl. lia.
  - cbn [json_text size]. change (u "[") with [91]. change (u "]") with [93].
    pose proof (join_length_bound size json_text (u ", ") l IH) as Hb.
    simpl length in *. rewrite length_app. simpl length. lia.
  - cbn [json_text size]. change (u "{") with [123]. change (u "}") with [125].
    pose proof (join_length_bound (fun kv => size (snd kv)) member (u ", ") d) as Hb.
    lapply Hb; [clear Hb; intros Hb|].
    + change (map (fun kv0 => json_string (fst kv0) ++ u ": " ++ json_text (snd kv0)))
        with (map member).
      simpl length in *. rewrite length_app. simpl length. lia.
    + eapply Forall_impl; [exact IH|]. intros [k v] Hv. unfold member.
      rewrite !length_app. simpl in *. lia.
Qed.

(** [json.loads] reads the text of [v] back. *)
Lemma json_decode_dumps v :
  well_formed v = true -> json_decode (json_text v) = Ok v.
Proof.
  intros Hwf. unfold json_decode.
  pose proof (skip_ws_dumps v []) as Hws. rewrite app_nil_r in Hws. rewrite Hws.
  pose proof (scan_once_dumps v Hwf (S (length (json_text v))) []) as Hscan.
  rewrite app_nil_r in Hscan. rewrite Hscan; [done| |done].
  pose proof (size_le_length v). lia.
Qed.

(** *** The conversions against the texts *)

Lemma mapR_within_limit {A} (f : A -> Result pystr) (g : A -> pystr)
      (within : A -> bool) e l :
  Forall (fun x => f x = if within x then Ok (g x) else Raise e) l ->
  mapR f l = if forallb within l then Ok (map g l) else Raise e.
Proof.
  induction 1 as [|x l Hx _ IH]; [done|].
  simpl. rewrite Hx. destruct (within x); [|done]. simpl.
  rewrite IH. by destruct (forallb within l).
Qed.

Lemma py_repr_spec v :
  py_repr v = if ints_within_limit v then Ok (repr_text v) else Raise int_to_str_error.
Proof.
  induction v as [| [] | z | f | s | l IH | d IH] using PyVal_nested_ind; try done.
  - simpl. unfold int_str. by destruct (exceeds_limit _).
  - cbn [py_repr ints_within_limit repr_text].
    rewrite (mapR_within_limit py_repr repr_text ints_within_limit int_to_str_error l IH).
    by destruct (forallb ints_within_limit l).
  - cbn [py_repr ints_within_limit repr_text].
    rewrite (mapR_within_limit _
               (fun kv => repr_str (fst kv) ++ u ": " ++ repr_text (snd kv))
               (fun kv => ints_within_limit (snd kv)) int_to_str_error d).
    + by destruct (forallb _ d).
    + eapply Forall_impl; [exact IH|]. intros [k x] Hx. simpl in *. rewrite Hx.
      by destruct (ints_within_limit x).
Qed.

Lemma json_dumps_spec v :
  json_dumps v = if ints_within_limit v then Ok (json_text v) else Raise int_to_str_error.
Proof.
  induction v as [| [] | z | f | s | l IH | d IH] using PyVal_nested_ind; try done.
  - simpl. unfold int_str. by destruct (exceeds_limit _).
  - cbn [json_dumps ints_within_limit json_text].
    rewrite (mapR_within_limit json_dumps json_text ints_within_limit int_to_str_error
               l IH).
    by destruct (forallb ints_within_limit l).
  - cbn [json_dumps ints_within_limit json_text].
    rewrite (mapR_within_limit _
               (fun kv => json_string (fst kv) ++ u ": " ++ json_text (snd kv))
               (fun kv => ints_within_limit (snd kv)) int_to_str_error d).
    + by destruct (forallb _ d).
    + eapply Forall_impl; [exact IH|]. intros [k x] Hx. simpl in *. rewrite Hx.
      by destruct (ints_within_limit x).
Qed.

Lemma well_formed_within_limit v : well_formed v = true -> ints_within_limit v = true.
Proof.
  induction v as [| b | z | f | s | l IH | d IH] using PyVal_nested_ind; try done.
  - simpl. induction IH as [|x l Hx _ IHl]; [done|].
    simpl. intros [Hwx Hwl]%andb_true_iff. rewrite Hx by done. by apply IHl.
  - simpl. intros [_ Hd]%andb_true_iff. induction IH as [|[k x] d Hx _ IHd]; [done|].
    simpl in *. apply andb_true_iff in Hd as [[_ Hwx]%andb_true_iff Hwd].
    rewrite Hx by done. by apply IHd.
Qed.

(** [json.loads(json.dumps(v)) == v] *)
Lemma json_loads_dumps v :
  well_formed v = true ->
  exists text, json_dumps v = Ok text /\ json_loads (PStr text) = Ok v.
Proof.
  intros Hwf. exists (json_text v). split.
  - by rewrite json_dumps_spec, well_formed_within_limit.
  - by apply json_decode_dumps.
Qed.

End RoundTrip.

(** * Facts about the loader *)

Section LoaderFacts.
Context {RT : PyRuntime}.
Implicit Types (self : Loader) (docs : list Document) (W : World).

Lemma new_inv W args self :
  new W args = Ok self ->
  exists compile program,
    jq W = Some compile /\ compile (jq_schema args) = Ok program /\
    self = <["_text_content" := ABool (text_content args)]>
            (<["_jq_schema" := AProgram program]>
            (<["_enable_cross_partition_query" := ABool (enable_cross_partition_query args)]>
            (<["query" := AStr (query args)]>
            (<["container" := AStr (container args)]>
            (<["database" := AStr (database args)]>
            (<["_conn_str" := AStr (conn_str args)]> ∅)))))).
Proof.
  unfold new, __init__, BaseLoader, import_jq, bind, lift, setattr, modify.
  destruct (jq W) as [compile|]; [|discriminate].
  destruct (compile (jq_schema args)) as [program|e] eqn:Hc; [|discriminate].
  intros [= <-]. by exists compile, program.
Qed.

Lemma new_text_mode W args self :
  new W args = Ok self -> text_mode self (text_content args).
Proof.
  intros (compile & program & _ & _ & ->)%new_inv. apply lookup_insert_eq.
Qed.

Lemma new_file_path W args self :
  new W args = Ok self -> self !! "file_path" = None.
Proof.
  intros (compile & program & _ & _ & ->)%new_inv.
  by rewrite !lookup_insert_ne.
Qed.

Lemma parse_sample_spec self i sample docs :
  parse_sample self i sample docs =
  match sample_document self i sample with
  | Ok d => (Ok tt, docs ++ [d])
  | Raise e => (Raise e, docs)
  end.
Proof.
  unfold parse_sample, sample_document, bind, lift, modify.
  destruct (getattr self "file_path") as [fp|e]; [|done].
  by destruct (_get_text _ _ _).
Qed.

(** A loop whose body appends one element or raises. *)
Lemma for_each_append {A B} (f : A -> Result B) (body : A -> M (list B) unit) :
  (forall x acc, body x acc =
     match f x with Ok b => (Ok tt, acc ++ [b]) | Raise e => (Raise e, acc) end) ->
  forall l acc,
    match mapM (fun x => returned (f x)) l with
    | Some new => for_each body l acc = (Ok tt, acc ++ new)
    | None => exists e new, for_each body l acc = (Raise e, acc ++ new)
    end.
Proof.
  intros Hbody l. induction l as [|x l IH]; intros acc; simpl.
  - by rewrite app_nil_r.
  - unfold bind. rewrite Hbody. destruct (f x) as [b|e]; simpl.
    + specialize (IH (acc ++ [b])).
      destruct (mapM _ l) as [new|]; simpl.
      * by rewrite IH, <- app_assoc.
      * destruct IH as (e & new & ->). exists e, (b :: new). by rewrite <- app_assoc.
    + exists e, []. by rewrite app_nil_r.
Qed.

Lemma enumerate_app {A} (l1 l2 : list A) i :
  enumerate (l1 ++ l2) i = enumerate l1 i ++ enumerate l2 (i + Z.of_nat (length l1)).
Proof.
  revert i. induction l1 as [|x l1 IH]; intros i; simpl.
  - by rewrite Z.add_0_r.
  - rewrite IH. do 3 f_equal. lia.
Qed.

Lemma enumerate_length {A} (l : list A) i : length (enumerate l i) = length l.
Proof. revert i. induction l; intros; simpl; auto. Qed.

Lemma enumerate_fst {A} (l : list A) i :
  map fst (enumerate l i) = map (fun k => (i + Z.of_nat k)%Z) (seq 0 (length l)).
Proof.
  revert i. induction l as [|x l IH]; intros i; simpl; [done|].
  rewrite Z.add_0_r. f_equal. rewrite IH, <- seq_shift, map_map.
  apply map_ext. intros. lia.
Qed.

Lemma mapM_length_eq {A B} (f : A -> option B) l k :
  mapM f l = Some k -> length k = length l.
Proof. intros H%mapM_Some. by apply Forall2_length in H. Qed.

(** One item: its samples are numbered after the documents already there. *)
Lemma parse_spec self content docs :
  match item_samples self content with
  | Ok samples =>
      match mapM (fun '(i, sample) => returned (sample_document self i sample))
                 (enumerate samples (Z.of_nat (length docs) + 1)) with
      | Some new => _parse self content docs = (Ok tt, docs ++ new)
      | None => exists e new, _parse self content docs = (Raise e, docs ++ new)
      end
  | Raise _ => exists e new, _parse self content docs = (Raise e, docs ++ new)
  end.
Proof.
  unfold _parse, item_samples, bind, lift, get, end_of.
  destruct (getattr self "_jq_schema") as [schema|e]; [|exists e, []; by rewrite app_nil_r].
  destruct (attr_input schema) as [inp|e]; [|exists e, []; by rewrite app_nil_r].
  destruct (json_loads content) as [value|e]; [|exists e, []; by rewrite app_nil_r].
  pose proof (for_each_append
    (fun '(i, sample) => sample_document self i sample)
    (fun '(i, sample) => parse_sample self i sample)) as H.
  lapply H; [clear H; intros H|intros [i s] acc; apply parse_sample_spec].
  specialize (H (enumerate (yielded (inp value)) (Z.of_nat (length docs) + 1)) docs).
  erewrite (mapM_ext _ (fun '(i, sample) => returned (sample_document self i sample))) in H.
  2:{ by intros [??]. }
  destruct (failure (inp value)) as [e|].
  - destruct (mapM _ _) as [new|].
    + rewrite H. by exists e, new.
    + destruct H as (e' & new & ->). by exists e', new.
  - destruct (mapM _ _) as [new|].
    + by rewrite H.
    + destruct H as (e' & new & ->). by exists e', new.
Qed.

Lemma mapM_app_option {A B} (f : A -> option B) l1 l2 :
  mapM f (l1 ++ l2) = k1 ← mapM f l1; k2 ← mapM f l2; Some (k1 ++ k2).
Proof.
  induction l1 as [|x l1 IH]; simpl.
  - by destruct (mapM f l2).
  - destruct (f x); simpl; [|done]. rewrite IH.
    destruct (mapM f l1); simpl; [|done]. by destruct (mapM f l2).
Qed.

Lemma for_each_parse_spec self contents docs :
  match mapM (fun content => returned (item_samples self content)) contents with
  | Some samples =>
      match mapM (fun '(i, sample) => returned (sample_document self i sample))
                 (enumerate (concat samples) (Z.of_nat (length docs) + 1)) with
      | Some new => for_each (_parse self) contents docs = (Ok tt, docs ++ new)
      | None => exists e new, for_each (_parse self) contents docs = (Raise e, docs ++ new)
      end
  | None => exists e new, for_each (_parse self) contents docs = (Raise e, docs ++ new)
  end.
Proof.
  revert docs. induction contents as [|content contents IH]; intros docs; simpl.
  - by rewrite app_nil_r.
  - unfold bind. pose proof (parse_spec self content docs) as Hone.
    destruct (item_samples self content) as [samples|e0]; simpl.
    2:{ destruct Hone as (e & new & ->). by exists e, new. }
    destruct (mapM _ (enumerate samples _)) as [new1|] eqn:Hnew1.
    2:{ destruct Hone as (e & new & ->).
        destruct (mapM _ contents) as [rest|]; simpl.
        - rewrite enumerate_app, mapM_app_option, Hnew1. simpl. by exists e, new.
        - by exists e, new. }
    rewrite Hone. specialize (IH (docs ++ new1)).
    assert (Z.of_nat (length (docs ++ new1)) + 1
            = Z.of_nat (length docs) + 1 + Z.of_nat (length samples))%Z as Hlen.
    { apply mapM_length_eq in Hnew1. rewrite enumerate_length in Hnew1.
      rewrite length_app. lia. }
    rewrite Hlen in IH.
    destruct (mapM _ contents) as [rest|]; simpl.
    + rewrite enumerate_app, mapM_app_option, Hnew1. simpl.
      destruct (mapM _ (enumerate (concat rest) _)) as [new2|]; simpl.
      * by rewrite IH, app_assoc.
      * destruct IH as (e & new & ->). exists e, (new1 ++ new). by rewrite app_assoc.
    + destruct IH as (e & new & ->). exists e, (new1 ++ new). by rewrite app_assoc.
Qed.

(** The loop of [load] against [documents_of]. *)
Lemma parse_items_spec self items :
  match documents_of self items with
  | Some docs => parse_items self items [] = (Ok tt, docs)
  | None => exists e acc, parse_items self items [] = (Raise e, acc)
  end.
Proof.
  unfold documents_of, parse_items, bind, end_of.
  pose proof (for_each_parse_spec self (yielded items) []) as H. simpl in H.
  destruct (failure items) as [e|].
  - destruct (for_each _ _ _) as [[[]|e'] acc]; eauto.
  - destruct (mapM _ (yielded items)) as [samples|]; simpl.
    + destruct (mapM _ (enumerate _ _)) as [docs|].
      * by rewrite H.
      * destruct H as (e & new & ->). eauto.
    + destruct H as (e & new & ->). eauto.
Qed.

Lemma collect_spec self items docs :
  collect self items = Ok docs <-> documents_of self items = Some docs.
Proof.
  unfold collect. pose proof (parse_items_spec self items) as H.
  destruct (documents_of self items) as [docs'|].
  - rewrite H. split; congruence.
  - destruct H as (e & acc & ->). split; discriminate.
Qed.

Lemma load_spec W self log :
  (exists e, fst (load W self log) = Raise e /\ forall items, ~ query_result W self items)
  \/ (exists items, query_result W self items /\
                    fst (load W self log) = collect self items).
Proof.
  unfold load, query_result, import_cosmos, bind, lift, call, getattr.
  destruct (azure_cosmos W) as [sdk|] eqn:H0.
  2:{ left. eexists. split; [done|]. intros items (?&?&?&?&?&?&?&?&?&?&?); congruence. }
  destruct (self !! "_conn_str") as [conn|] eqn:Ha.
  2:{ left. eexists. split; [done|]. intros items (?&?&?&?&?&?&?&?&?&?&?&?); congruence. }
  destruct (from_connection_string sdk conn) as [client|] eqn:H1.
  2:{ left. eexists. split; [done|].
      intros items (?&?&?&?&?&?&?&?&?&?&?&?&?); congruence. }
  destruct (self !! "database") as [dname|] eqn:Hb.
  2:{ left. eexists. split; [done|].
      intros items (?&?&?&?&?&?&?&?&?&?&?&?&?&?); congruence. }
  destruct (get_database_client sdk client dname) as [db|] eqn:H2.
  2:{ left. eexists. split; [done|].
      intros items (?&?&?&?&?&?&?&?&?&?&?&?&?&?&?); congruence. }
  destruct (self !! "container") as [cname|] eqn:Hc.
  2:{ left. eexists. split; [done|].
      intros items (?&?&?&?&?&?&?&?&?&?&?&?&?&?&?&?); congruence. }
  destruct (get_container_client sdk db cname) as [cont|] eqn:H3.
  2:{ left. eexists. split; [done|].
      intros items (?&?&?&?&?&?&?&?&?&?&?&?&?&?&?&?&?); congruence. }
  destruct (self !! "query") as [q|] eqn:Hd.
  2:{ left. eexists. split; [done|].
      intros items (?&?&?&?&?&?&?&?&?&?&?&?&?&?&?&?&?&?); congruence. }
  destruct (self !! "_enable_cross_partition_query") as [cross|] eqn:He.
  2:{ left. eexists. split; [done|].
      intros items (?&?&?&?&?&?&?&?&?&?&?&?&?&?&?&?&?&?&?); congruence. }
  destruct (query_items sdk cont q cross) as [items|] eqn:H4.
  2:{ left. eexists. split; [done|].
      intros items (?&?&?&?&?&?&?&?&?&?&?&?&?&?&?&?&?&?&?); congruence. }
  right. exists items. split; [|done].
  by exists sdk, client, db, cont, conn, dname, cname, q, cross.
Qed.

Lemma query_result_unique W self items1 items2 :
  query_result W self items1 -> query_result W self items2 -> items1 = items2.
Proof.
  intros (?&?&?&?&?&?&?&?&?&?&?&?&?&?&?&?&?&?&?)
         (?&?&?&?&?&?&?&?&?&?&?&?&?&?&?&?&?&?&?).
  congruence.
Qed.

Lemma load_returns W self log docs :
  fst (load W self log) = Ok docs ->
  exists items, query_result W self items /\ documents_of self items = Some docs.
Proof.
  intros Hload. destruct (load_spec W self log) as [(e & He & _)|(items & Hq & Hl)].
  - congruence.
  - exists items. split; [done|]. apply collect_spec. congruence.
Qed.

Lemma sample_document_metadata self i sample d :
  sample_document self i sample = Ok d ->
  exists file_path, self !! "file_path" = Some file_path /\
    metadata d = sample_metadata file_path i.
Proof.
  unfold sample_document, getattr.
  destruct (self !! "file_path") as [fp|]; [|discriminate].
  destruct (_get_text _ _ _); [|discriminate].
  intros [= <-]. by exists fp.
Qed.

Lemma documents_of_metadata self items docs :
  documents_of self items = Some docs ->
  exists file_path, forall (k : nat) d,
    docs !! k = Some d -> metadata d = sample_metadata file_path (Z.of_nat k + 1).
Proof.
  unfold documents_of. destruct (failure items); [discriminate|].
  destruct (mapM _ (yielded items)) as [samples|]; [simpl|discriminate].
  intros H%mapM_Some.
  destruct (self !! "file_path") as [fp|] eqn:Hfp.
  - exists fp. intros k d Hk.
    destruct (Forall2_lookup_r _ _ _ _ _ H Hk) as ([i s] & Hi & Hd).
    destruct (returned _) as [d'|] eqn:Hr; [|discriminate].
    injection Hd as ->.
    destruct (sample_document self i s) as [d'|] eqn:Hs; [|discriminate].
    injection Hr as ->.
    apply sample_document_metadata in Hs as (fp' & Hfp' & ->).
    assert (fp' = fp) as -> by congruence.
    assert (i = (Z.of_nat k + 1)%Z) as ->; [|done].
    assert (map fst (enumerate (concat samples) 1) !! k = Some i) as Hki
      by (by rewrite list_lookup_fmap, Hi).
    rewrite enumerate_fst, list_lookup_fmap in Hki.
    destruct (seq 0 _ !! k) as [k'|] eqn:Hseq; [|discriminate].
    apply lookup_seq in Hseq as [-> _]. injection Hki as <-. lia.
  - exists (ABool true). intros k d Hk.
    destruct (Forall2_lookup_r _ _ _ _ _ H Hk) as ([i s] & Hi & Hd).
    unfold sample_document, getattr in Hd. by rewrite Hfp in Hd.
Qed.

(** C1: the [seq_num] values of the documents [load] returns are 1, 2, ...,
    N in output order, N the number of documents returned: one counter for
    the whole result set, not one per item. *)
Theorem load_seq_num W self log docs log' :
  load W self log = (Ok docs, log') ->
  seq_nums docs = map (fun k => Some (PInt (Z.of_nat k))) (seq 1 (length docs)).
Proof.
  intros Hload.
  destruct (load_returns W self log docs) as (items & _ & Hdocs); [by rewrite Hload|].
  apply documents_of_metadata in Hdocs as (fp & Hmeta).
  apply list_eq. intros k. unfold seq_nums.
  rewrite !list_lookup_fmap.
  destruct (docs !! k) as [d|] eqn:Hk; simpl.
  - rewrite (Hmeta k d Hk). unfold sample_metadata. rewrite lookup_insert_eq.
    rewrite (lookup_seq_lt _ _ k) by (by apply lookup_lt_Some in Hk).
    cbn -[Z.of_nat Z.add]. by replace (Z.of_nat k + 1)%Z with (Z.of_nat (S k)) by lia.
  - rewrite lookup_seq_ge; [done|]. by apply lookup_ge_None in Hk.
Qed.

(** C9: [load] either raises or returns the whole list.  When it raises
    and the query had gone through, the loop raised that exception at some
    step, and the documents it had appended by then are not returned; when
    it returns, no step raised and the list is that of all samples of all
    items, in order. *)
Theorem load_all_or_nothing W self log :
  (exists e, fst (load W self log) = Raise e /\
     forall items, query_result W self items ->
       documents_of self items = None /\
       exists acc, parse_items self items [] = (Raise e, acc))
  \/ (exists docs items,
        fst (load W self log) = Ok docs /\ query_result W self items /\
        documents_of self items = Some docs /\
        parse_items self items [] = (Ok tt, docs)).
Proof.
  destruct (load_spec W self log) as [(e & He & Hno)|(items & Hq & Hl)].
  - left. exists e. split; [done|]. intros items Hq. by destruct (Hno items).
  - pose proof (parse_items_spec self items) as Hloop.
    destruct (documents_of self items) as [docs|] eqn:Hdocs.
    + right. exists docs, items. repeat split; try done.
      rewrite Hl. by apply collect_spec.
    + left. destruct Hloop as (e & acc & Hloop). exists e. split.
      * rewrite Hl. unfold collect. by rewrite Hloop.
      * intros items' Hq'. rewrite (query_result_unique _ _ _ _ Hq' Hq). eauto.
Qed.

(** Every document [load] returns has a string under [source] and an
    integer under [seq_num]. *)
Lemma load_metadata W self log docs log' d :
  load W self log = (Ok docs, log') -> d ∈ docs ->
  exists source i,
    metadata d !! "source" = Some (PStr source) /\
    metadata d !! "seq_num" = Some (PInt i).
Proof.
  intros Hload (k & Hk)%list_elem_of_lookup.
  destruct (load_returns W self log docs) as (items & _ & Hdocs); [by rewrite Hload|].
  apply documents_of_metadata in Hdocs as (fp & Hmeta).
  rewrite (Hmeta k d Hk). exists (attr_str fp), (Z.of_nat k + 1)%Z.
  unfold sample_metadata. split; [|apply lookup_insert_eq].
  rewrite lookup_insert_ne by done. apply lookup_insert_eq.
Qed.

(** A loader as [__init__] leaves it has no [file_path]: the first sample
    raises, whatever it is. *)
Lemma constructed_sample_raises W args self i sample docs :
  new W args = Ok self ->
  parse_sample self i sample docs =
  (Raise (AttributeError "'AzureCosmosDBLoader' object has no attribute 'file_path'"),
   docs).
Proof.
  intros Hfp%new_file_path. unfold parse_sample, bind, lift, getattr. by rewrite Hfp.
Qed.

Lemma constructed_load_empty W args self log docs log' :
  new W args = Ok self -> load W self log = (Ok docs, log') -> docs = [].
Proof.
  intros Hfp%new_file_path Hload.
  destruct (load_returns W self log docs) as (items & _ & Hdocs); [by rewrite Hload|].
  unfold documents_of in Hdocs. destruct (failure items); [discriminate|].
  destruct (mapM _ (yielded items)) as [samples|]; [simpl in Hdocs|discriminate].
  apply mapM_Some in Hdocs. destruct Hdocs as [|[i s] d ? ? Hd _]; [done|].
  unfold sample_document, getattr in Hd. by rewrite Hfp in Hd.
Qed.

(** ** Text extraction *)

Lemma py_str_spec v :
  py_str v =
  if ints_within_limit v then Ok (match v with PStr s => s | _ => repr_text v end)
  else Raise int_to_str_error.
Proof. destruct v; try apply py_repr_spec. done. Qed.

(** [_get_text] when the flag is not set. *)
Lemma get_text_falsy self flag sample md :
  self !! "_text_content" = Some flag -> attr_truthy flag = false ->
  _get_text self sample md =
  match sample with
  | PStr s => Ok s
  | PDict d => match d with [] => Ok [] | _ => json_dumps sample end
  | PNone => Ok []
  | _ => py_str sample
  end.
Proof. intros Hflag Hfalse. unfold _get_text, getattr. by rewrite Hflag, Hfalse. Qed.

Lemma get_text_off self sample md :
  text_mode self false ->
  _get_text self sample md =
  match sample with
  | PStr s => Ok s
  | PDict d => match d with [] => Ok [] | _ => json_dumps sample end
  | PNone => Ok []
  | _ => py_str sample
  end.
Proof. intros Hmode. by apply (get_text_falsy self (ABool false)). Qed.



(** C3: with text mode enabled, a sample that is not a string makes
    [_get_text] raise a [ValueError] whose message gives the type of the
    sample and says to set [text_content=False]; the step of the loop
    raises and leaves the list of documents as it was. *)
Theorem get_text_type_mismatch self sample md :
  text_mode self true -> is_str sample = false ->
  _get_text self sample md =
    Raise (ValueError
      ("Expected page_content is string, got " ++ type_repr sample ++ " instead. "
       ++ "                    Set `text_content=False` if the desired input for "
       ++ "                    `page_content` is not a string"))
  /\ forall i docs, exists e, parse_sample self i sample docs = (Raise e, docs).
Proof.
  intros Hmode Hstr. assert (_get_text self sample md =
    Raise (ValueError (type_mismatch sample))) as Hget.
  { unfold _get_text, getattr. rewrite Hmode. simpl. by rewrite Hstr. }
  split; [done|]. intros i docs. rewrite parse_sample_spec.
  unfold sample_document. destruct (getattr self "file_path") as [fp|e]; [|by eexists].
  assert (_get_text self sample (sample_metadata fp i) =
          Raise (ValueError (type_mismatch sample))) as ->; [|by eexists].
  unfold _get_text, getattr. rewrite Hmode. simpl. by rewrite Hstr.
Qed.

(** C4: a sample that is a string is returned as it is, whatever the
    flag, the empty string included, and is the [page_content] of the
    document the step of the loop appends. *)
Theorem get_text_string self enabled s md :
  text_mode self enabled ->
  _get_text self (PStr s) md = Ok s
  /\ forall file_path i docs,
       self !! "file_path" = Some file_path ->
       parse_sample self i (PStr s) docs =
       (Ok tt, docs ++ [{| page_content := s;
                           metadata := sample_metadata file_path i |}]).
Proof.
  intros Hmode.
  assert (forall md', _get_text self (PStr s) md' = Ok s) as Hget.
  { intros md'. unfold _get_text, getattr. rewrite Hmode. simpl.
    by rewrite andb_false_r. }
  split; [done|]. intros fp i docs Hfp.
  rewrite parse_sample_spec. unfold sample_document, getattr. by rewrite Hfp, Hget.
Qed.

(** C6: with text mode disabled, the empty mapping gives the empty
    string, not its JSON text. *)
Theorem get_text_empty_dict self md :
  text_mode self false ->
  _get_text self (PDict []) md = Ok [] /\ json_dumps (PDict []) = Ok (u "{}").
Proof.
  intros Hmode. split; [|done]. unfold _get_text, getattr. by rewrite Hmode.
Qed.

(** C7: with text mode disabled, a sample that is neither a string nor
    a mapping gives [str(sample)], and [None] gives the empty string. *)
Theorem get_text_other self sample md :
  text_mode self false -> is_str sample = false -> is_dict sample = false ->
  _get_text self sample md = if is_none sample then Ok [] else py_str sample.
Proof.
  intros Hmode Hstr Hdict. unfold _get_text, getattr. rewrite Hmode. simpl.
  by destruct sample.
Qed.


(** C8: without the jq package the constructor raises the [ImportError]
    that says how to install it, and stores nothing in the object; without
    the azure-cosmos package [load] raises its [ImportError] and has made
    no call to the SDK. *)
Theorem missing_dependency W W' :
  jq W = None -> azure_cosmos W' = None ->
  (forall args self,
     __init__ W args self =
     (Raise (ImportError "jq package not found, please install it with `pip install jq`"),
      self))
  /\ (forall self log,
        load W' self log =
        (Raise (ImportError ("Could not import azure cosmos python package. "
                             ++ "Please install it with `pip install azure-cosmos`.")),
         log)).
Proof.
  intros Hjq Hcosmos. split.
  - intros args self. unfold __init__, import_jq, bind, lift. by rewrite Hjq.
  - intros self log. unfold load, import_cosmos, bind, lift. by rewrite Hcosmos.
Qed.

(** C5: with text mode disabled, a mapping that is not empty gives its
    JSON text, and [json.loads] on that text gives the mapping back. *)
Theorem get_text_dict_round_trip (self : Loader) d md :
  text_mode self false -> d <> [] -> well_formed (PDict d) = true ->
  exists text,
    _get_text self (PDict d) md = Ok text /\
    json_dumps (PDict d) = Ok text /\
    json_loads (PStr text) = Ok (PDict d).
Proof.
  intros Hmode Hd Hwf.
  destruct (json_loads_dumps (PDict d) Hwf) as (text & Hdumps & Hloads).
  exists text. repeat split; try done.
  rewrite (get_text_off self _ md Hmode), <- Hdumps. by destruct d.
Qed.
End LoaderFacts.

(** * The loader at work in the example world *)

(** The constructor succeeds and stores seven attributes; [file_path] is
    not one of them. *)
Example constructed_attributes :
  new (example_world {| yielded := []; failure := None |}) (example_args (u ".[]") false)
  = Ok (constructed (u ".[]") false)
  /\ dom (constructed (u ".[]") false)
     = {[ "_conn_str"; "database"; "container"; "query";
          "_enable_cross_partition_query"; "_jq_schema"; "_text_content" ]}
  /\ constructed (u ".[]") false !! "file_path" = None.
Proof. repeat split; vm_compute; reflexivity. Qed.

(** C2: the example of the specification ([.[]] on an item with the two
    fields [a] and [b], text mode disabled), on the loader as the
    constructor leaves it: [load] makes its four calls to the SDK and
    raises [AttributeError] at the first sample, where two documents are
    expected. *)
Theorem load_constructed_raises :
  load (example_world {| yielded := [item_ab]; failure := None |})
       (constructed (u ".[]") false) []
  = (Raise (AttributeError "'AzureCosmosDBLoader' object has no attribute 'file_path'"),
     example_calls).
Proof. vm_compute. reflexivity. Qed.

(** With the attribute set by hand the same run gives the two documents
    of the specification's example. *)
Example load_spec_example :
  fst (load (example_world {| yielded := [item_ab]; failure := None |})
            (with_file_path (constructed (u ".[]") false)) [])
  = Ok [example_doc (u "x") 1; example_doc (u "y") 2].
Proof. vm_compute. reflexivity. Qed.

Lemma load_two_items :
  load (example_world {| yielded := [item_ab; item_list]; failure := None |})
       (with_file_path (constructed (u ".[]") false)) []
  = (Ok example_docs, example_calls).
Proof. vm_compute. reflexivity. Qed.

Lemma load_seq_num_witness :
  seq_nums example_docs
  = [Some (PInt 1); Some (PInt 2); Some (PInt 3); Some (PInt 4); Some (PInt 5);
     Some (PInt 6)].
Proof.
  exact (load_seq_num _ _ _ _ _ load_two_items).
Defined.

(** A run that fails at its third item: the loop had six documents, the
    caller gets the exception only. *)
Example load_discards_documents :
  parse_items (with_file_path (constructed (u ".[]") false))
              {| yielded := [item_ab; item_list; item_broken]; failure := None |} []
  = (Raise JSONDecodeError, example_docs)
  /\ fst (load (example_world {| yielded := [item_ab; item_list; item_broken];
                                failure := None |})
               (with_file_path (constructed (u ".[]") false)) [])
     = Raise JSONDecodeError.
Proof. split; vm_compute; reflexivity. Qed.

Lemma get_text_type_mismatch_witness :
  _get_text (constructed (u ".") true) (PDict [(u "a", PInt 1)]) ∅
  = Raise (ValueError
      ("Expected page_content is string, got <class 'dict'> instead. "
       ++ "                    Set `text_content=False` if the desired input for "
       ++ "                    `page_content` is not a string"))
  /\ forall i docs, exists e,
       parse_sample (constructed (u ".") true) i (PDict [(u "a", PInt 1)]) docs
       = (Raise e, docs).
Proof.
  apply (get_text_type_mismatch (constructed (u ".") true) (PDict [(u "a", PInt 1)]) ∅).
  - vm_compute. reflexivity.
  - reflexivity.
Defined.

Lemma get_text_string_witness :
  _get_text (with_file_path (constructed (u ".") true)) (PStr []) ∅ = Ok []
  /\ forall file_path i docs,
       with_file_path (constructed (u ".") true) !! "file_path" = Some file_path ->
       parse_sample (with_file_path (constructed (u ".") true)) i (PStr []) docs
       = (Ok tt, docs ++ [{| page_content := [];
                             metadata := sample_metadata file_path i |}]).
Proof.
  apply (get_text_string (with_file_path (constructed (u ".") true)) true [] ∅).
  vm_compute. reflexivity.
Defined.

Lemma get_text_dict_round_trip_witness :
  exists text,
    _get_text (constructed (u ".") false) nested ∅ = Ok text /\
    json_dumps nested = Ok text /\
    json_loads (PStr text) = Ok nested.
Proof.
  apply (get_text_dict_round_trip (constructed (u ".") false) nested_members ∅).
  - vm_compute. reflexivity.
  - discriminate.
  - vm_compute. reflexivity.
Defined.

Lemma get_text_empty_dict_witness :
  _get_text (constructed (u ".") false) (PDict []) ∅ = Ok []
  /\ json_dumps (PDict []) = Ok (u "{}").
Proof.
  apply (get_text_empty_dict (constructed (u ".") false) ∅).
  vm_compute. reflexivity.
Defined.

Lemma get_text_other_witness :
  _get_text (constructed (u ".") false) (PList [PInt 1; PStr (u "a"); PNone]) ∅
  = Ok (u "[1, 'a', None]").
Proof.
  apply (get_text_other (constructed (u ".") false)
           (PList [PInt 1; PStr (u "a"); PNone]) ∅).
  - vm_compute. reflexivity.
  - reflexivity.
  - reflexivity.
Defined.



Lemma missing_dependency_witness :
  (forall args self,
     __init__ world_without_jq args self =
     (Raise (ImportError "jq package not found, please install it with `pip install jq`"),
      self))
  /\ (forall self log,
        load world_without_cosmos self log =
        (Raise (ImportError ("Could not import azure cosmos python package. "
                             ++ "Please install it with `pip install azure-cosmos`.")),
         log)).
Proof.
  apply (missing_dependency world_without_jq world_without_cosmos); reflexivity.
Defined.

(** Outside the JSON values the text does not read back: a string that
    holds the two surrogates of U+1F600 as two code points is written as
    two escapes, which [json.loads] reads as the one code point. *)
Example surrogates_not_read_back :
  well_formed (PDict [(u "k", PStr [55357; 56832])]) = false
  /\ json_loads (PStr (dumped (PDict [(u "k", PStr [55357; 56832])])))
     = Ok (PDict [(u "k", PStr [128512])]).
Proof. split; vm_compute; reflexivity. Qed.

(** What the branches of [_get_text] print, text mode disabled. *)
Example get_text_examples :
  map (fun v => _get_text (constructed (u ".") false) v ∅)
      [PStr (u "x"); PInt (-12); PBool false; PFloat (Finite f_1e16); PNone;
       PList []; PDict []; nested]
  = map Ok [u "x"; u "-12"; u "False"; u "1e+16"; []; u "[]"; [];
            dumped nested].
Proof. vm_compute. reflexivity. Qed.

(** * More about the loader *)

Section LoaderMore.
Context {RT : PyRuntime}.
Implicit Types (self : Loader) (docs : list Document) (W : World).

Lemma enumerate_lookup {A} (l : list A) i (k : nat) :
  enumerate l i !! k = (fun x => ((i + Z.of_nat k)%Z, x)) <$> l !! k.
Proof.
  revert i k. induction l as [|x l IH]; intros i [|k]; simpl; try done.
  - by rewrite Z.add_0_r.
  - rewrite IH. destruct (l !! k); simpl; [|done]. do 2 f_equal. lia.
Qed.

Lemma get_text_metadata self sample md md' :
  _get_text self sample md = _get_text self sample md'.
Proof. done. Qed.

Lemma returned_Some {A} (r : Result A) a : returned r = Some a <-> r = Ok a.
Proof. destruct r; simpl; split; congruence. Qed.

(** [documents_of], spelled out. *)
Lemma documents_of_inv self items docs :
  documents_of self items = Some docs ->
  exists samples,
    failure items = None /\
    Forall2 (fun content ss => item_samples self content = Ok ss)
            (yielded items) samples /\
    length docs = length (concat samples) /\
    forall (k : nat) d,
      docs !! k = Some d ->
      exists s, concat samples !! k = Some s /\
                sample_document self (Z.of_nat k + 1) s = Ok d.
Proof.
  unfold documents_of. destruct (failure items); [discriminate|].
  destruct (mapM _ (yielded items)) as [samples|] eqn:Hs; [simpl|discriminate].
  intros Hdocs%mapM_Some. exists samples. split; [done|]. split.
  { apply mapM_Some in Hs. eapply Forall2_impl; [exact Hs|].
    intros content ss. apply returned_Some. }
  split.
  { apply Forall2_length in Hdocs. by rewrite enumerate_length in Hdocs. }
  intros k d Hk.
  destruct (Forall2_lookup_r _ _ _ _ _ Hdocs Hk) as ([i s] & Hi & Hd).
  rewrite enumerate_lookup in Hi.
  destruct (concat samples !! k) as [s'|]; [|discriminate].
  injection Hi as <- <-. exists s'. split; [done|].
  apply returned_Some in Hd. by rewrite Z.add_comm.
Qed.

(** X1: when [load] returns, it returns one document per sample the
    filter yielded over all items, in the order of the items and of the
    samples of each item: the k-th document holds the text of the k-th
    sample. *)
Theorem load_documents_of_samples W self log docs log' :
  load W self log = (Ok docs, log') ->
  exists items samples,
    query_result W self items /\
    Forall2 (fun content ss => item_samples self content = Ok ss)
            (yielded items) samples /\
    length docs = length (concat samples) /\
    forall (k : nat) d s md,
      docs !! k = Some d -> concat samples !! k = Some s ->
      _get_text self s md = Ok (page_content d).
Proof.
  intros Hload.
  destruct (load_returns W self log docs) as (items & Hq & Hdocs); [by rewrite Hload|].
  apply documents_of_inv in Hdocs as (samples & _ & Hs & Hlen & Hk).
  exists items, samples. repeat split; try done.
  intros k d s md Hd Hsk. destruct (Hk k d Hd) as (s' & Hs' & Hdoc).
  assert (s' = s) as -> by congruence.
  unfold sample_document in Hdoc.
  destruct (getattr self "file_path") as [fp|]; [|discriminate].
  rewrite (get_text_metadata self s md (sample_metadata fp (Z.of_nat k + 1))).
  destruct (_get_text _ _ _); [|discriminate]. by injection Hdoc as <-.
Qed.

(** X2: when [load] returns documents, the loader has a [file_path], and
    the metadata of the k-th document is exactly [source], the text of
    that attribute (the same for all documents), and [seq_num], k + 1. *)
Theorem load_metadata_exact W self log docs log' :
  load W self log = (Ok docs, log') -> docs <> [] ->
  exists file_path,
    self !! "file_path" = Some file_path /\
    forall (k : nat) d,
      docs !! k = Some d ->
      metadata d !! "source" = Some (PStr (attr_str file_path)) /\
      metadata d !! "seq_num" = Some (PInt (Z.of_nat k + 1)) /\
      dom (metadata d) = {[ "source"; "seq_num" ]}.
Proof.
  intros Hload Hne.
  destruct (load_returns W self log docs) as (items & Hq & Hdocs); [by rewrite Hload|].
  apply documents_of_inv in Hdocs as (samples & _ & _ & _ & Hk).
  destruct docs as [|d0 docs]; [done|].
  destruct (Hk 0%nat d0 eq_refl) as (s0 & _ & Hd0).
  apply sample_document_metadata in Hd0 as (fp & Hfp & _).
  exists fp. split; [done|]. intros k d Hd.
  destruct (Hk k d Hd) as (s & _ & Hdoc).
  apply sample_document_metadata in Hdoc as (fp' & Hfp' & ->).
  assert (fp' = fp) as -> by congruence.
  unfold sample_metadata. split; [|split].
  - rewrite lookup_insert_ne by done. apply lookup_insert_eq.
  - apply lookup_insert_eq.
  - rewrite !dom_insert_L, dom_empty_L. set_solver.
Qed.

(** X7: with text mode enabled, when [load] returns, every sample was a
    string and the documents hold these strings, unchanged and in
    order. *)
Theorem load_text_mode_strings W self log docs log' :
  text_mode self true -> load W self log = (Ok docs, log') ->
  exists items samples,
    query_result W self items /\
    Forall2 (fun content ss => item_samples self content = Ok ss)
            (yielded items) samples /\
    concat samples = map (fun d => PStr (page_content d)) docs.
Proof.
  intros Hmode Hload.
  destruct (load_returns W self log docs) as (items & Hq & Hdocs); [by rewrite Hload|].
  apply documents_of_inv in Hdocs as (samples & _ & Hs & Hlen & Hk).
  exists items, samples. repeat split; try done.
  apply list_eq. intros k. rewrite list_lookup_fmap.
  destruct (docs !! k) as [d|] eqn:Hd; simpl.
  - destruct (Hk k d Hd) as (s & -> & Hdoc). f_equal.
    unfold sample_document in Hdoc.
    destruct (getattr self "file_path") as [fp|]; [|discriminate].
    unfold _get_text, getattr in Hdoc. rewrite Hmode in Hdoc. simpl in Hdoc.
    destruct s; try discriminate. simpl in Hdoc. by injection Hdoc as <-.
  - apply lookup_ge_None. apply lookup_ge_None in Hd. lia.
Qed.

(** The samples of one item, numbered from [i]: the documents appended
    keep their order and carry [i], [i + 1], ... whether the loop ends or
    raises. *)
Lemma for_each_sample_appends self samples i docs r docs' :
  for_each (fun '(i, sample) => parse_sample self i sample) (enumerate samples i) docs
  = (r, docs') ->
  exists new,
    docs' = docs ++ new /\ (length new <= length samples)%nat /\
    seq_nums new = map (fun k => Some (PInt (i + Z.of_nat k))) (seq 0 (length new)).
Proof.
  revert i docs. induction samples as [|s samples IH]; intros i docs; simpl.
  - intros [= <- <-]. exists []. by rewrite app_nil_r.
  - unfold bind. rewrite parse_sample_spec.
    destruct (sample_document self i s) as [d|e] eqn:Hd.
    + intros (new & -> & Hlen & Hnum)%IH. exists (d :: new).
      rewrite <- app_assoc. split; [done|]. split; [simpl; lia|].
      apply sample_document_metadata in Hd as (fp & _ & Hmd).
      simpl. rewrite Hmd. unfold sample_metadata at 1. rewrite lookup_insert_eq.
      rewrite Z.add_0_r. f_equal. rewrite Hnum, <- seq_shift, map_map.
      apply map_ext. intros k. do 2 f_equal. lia.
    + intros [= <- <-]. exists []. rewrite app_nil_r. split; [done|]. split; [simpl; lia|done].
Qed.

(** X3: [_parse] only appends to the list it is given, whether it
    returns or raises: the documents already there stay as they are, and
    the appended ones are numbered from the length of the list plus
    one. *)
Theorem parse_appends self content docs r docs' :
  _parse self content docs = (r, docs') ->
  exists new,
    docs' = docs ++ new /\
    seq_nums new
    = map (fun k => Some (PInt (Z.of_nat (length docs + 1 + k)))) (seq 0 (length new)).
Proof.
  unfold _parse, bind, lift, get.
  destruct (getattr self "_jq_schema") as [schema|e];
    [|intros [= <- <-]; exists []; by rewrite app_nil_r].
  destruct (attr_input schema) as [inp|e];
    [|intros [= <- <-]; exists []; by rewrite app_nil_r].
  destruct (json_loads content) as [value|e];
    [|intros [= <- <-]; exists []; by rewrite app_nil_r].
  destruct (for_each _ _ docs) as [r0 docs0] eqn:Hloop.
  apply for_each_sample_appends in Hloop as (new & -> & _ & Hnum).
  intros Hend. exists new. split.
  - destruct r0; [|by injection Hend as _ <-].
    unfold end_of in Hend. destruct (failure _); by injection Hend as _ <-.
  - rewrite Hnum. apply map_ext. intros k. do 2 f_equal. lia.
Qed.

(** X4: [load] hands the arguments of the constructor to the SDK as they
    are: the connection string, then the database name on the client
    obtained, the container name on the database, and the query with the
    cross-partition flag on the container; its result is that of the loop
    over the items returned. *)
Theorem load_passes_configuration W args self sdk client db cont items log :
  new W args = Ok self ->
  azure_cosmos W = Some sdk ->
  from_connection_string sdk (AStr (conn_str args)) = Ok client ->
  get_database_client sdk client (AStr (database args)) = Ok db ->
  get_container_client sdk db (AStr (container args)) = Ok cont ->
  query_items sdk cont (AStr (query args))
              (ABool (enable_cross_partition_query args)) = Ok items ->
  load W self log =
  (collect self items,
   log ++ [CallFromConnectionString (AStr (conn_str args));
           CallGetDatabaseClient client (AStr (database args));
           CallGetContainerClient db (AStr (container args));
           CallQueryItems cont (AStr (query args))
                          (ABool (enable_cross_partition_query args))]).
Proof.
  intros (compile & program & _ & _ & Hself)%new_inv Hsdk H1 H2 H3 H4.
  assert (self !! "_conn_str" = Some (AStr (conn_str args))) as Ha
    by (subst self; by simplify_map_eq).
  assert (self !! "database" = Some (AStr (database args))) as Hb
    by (subst self; by simplify_map_eq).
  assert (self !! "container" = Some (AStr (container args))) as Hc
    by (subst self; by simplify_map_eq).
  assert (self !! "query" = Some (AStr (query args))) as Hd
    by (subst self; by simplify_map_eq).
  assert (self !! "_enable_cross_partition_query"
          = Some (ABool (enable_cross_partition_query args))) as He
    by (subst self; by simplify_map_eq).
  unfold load, import_cosmos, bind, lift, call, getattr.
  rewrite Hsdk, Ha, H1, Hb, H2, Hc, H3, Hd, He, H4.
  by rewrite <- !app_assoc.
Qed.

(** X10: [load] makes at most four calls to the SDK, in the order
    connection, database, container, query, each at most once; all four
    when it returns. *)
Theorem load_calls W self log r log' :
  load W self log = (r, log') ->
  exists conn client dname db cname cont q cross,
    (log' `prefix_of`
       log ++ [CallFromConnectionString conn; CallGetDatabaseClient client dname;
               CallGetContainerClient db cname; CallQueryItems cont q cross])
    /\ (forall docs, r = Ok docs -> length log' = (length log + 4)%nat).
Proof.
  unfold load, import_cosmos, bind, lift, call, getattr.
  set (h := 0%nat). set (a := ABool true).
  destruct (azure_cosmos W) as [sdk|].
  2:{ intros [= <- <-]. exists a, h, a, h, a, h, a, a. split; [|done].
      by apply prefix_app_r. }
  destruct (self !! "_conn_str") as [conn|].
  2:{ intros [= <- <-]. exists a, h, a, h, a, h, a, a. split; [|done].
      by apply prefix_app_r. }
  destruct (from_connection_string sdk conn) as [client|].
  2:{ intros [= <- <-]. exists conn, h, a, h, a, h, a, a. split; [|done].
      apply prefix_app, prefix_cons, prefix_nil. }
  destruct (self !! "database") as [dname|].
  2:{ intros [= <- <-]. exists conn, h, a, h, a, h, a, a. split; [|done].
      apply prefix_app, prefix_cons, prefix_nil. }
  destruct (get_database_client sdk client dname) as [db|].
  2:{ intros [= <- <-]. exists conn, client, dname, h, a, h, a, a. split; [|done].
      rewrite <- app_assoc. apply prefix_app, prefix_cons, prefix_cons, prefix_nil. }
  destruct (self !! "container") as [cname|].
  2:{ intros [= <- <-]. exists conn, client, dname, h, a, h, a, a. split; [|done].
      rewrite <- app_assoc. apply prefix_app, prefix_cons, prefix_cons, prefix_nil. }
  destruct (get_container_client sdk db cname) as [cont|].
  2:{ intros [= <- <-]. exists conn, client, dname, db, cname, h, a, a. split; [|done].
      rewrite <- !app_assoc.
      apply prefix_app, prefix_cons, prefix_cons, prefix_cons, prefix_nil. }
  destruct (self !! "query") as [q|].
  2:{ intros [= <- <-]. exists conn, client, dname, db, cname, h, a, a. split; [|done].
      rewrite <- !app_assoc.
      apply prefix_app, prefix_cons, prefix_cons, prefix_cons, prefix_nil. }
  destruct (self !! "_enable_cross_partition_query") as [cross|].
  2:{ intros [= <- <-]. exists conn, client, dname, db, cname, h, a, a. split; [|done].
      rewrite <- !app_assoc.
      apply prefix_app, prefix_cons, prefix_cons, prefix_cons, prefix_nil. }
  intros Hr. exists conn, client, dname, db, cname, cont, q, cross.
  assert (log' = log ++ [CallFromConnectionString conn; CallGetDatabaseClient client dname;
                         CallGetContainerClient db cname; CallQueryItems cont q cross])
    as ->.
  { destruct (query_items sdk cont q cross); injection Hr as _ <-;
      by rewrite <- !app_assoc. }
  split; [done|]. intros _ _. rewrite length_app. simpl. lia.
Qed.

Lemma load_collect W self log items :
  query_result W self items -> fst (load W self log) = collect self items.
Proof.
  intros Hq. destruct (load_spec W self log) as [(e & _ & Hno)|(items' & Hq' & ->)].
  - by destruct (Hno items).
  - by rewrite (query_result_unique _ _ _ _ Hq Hq').
Qed.

Lemma mapM_no_samples self contents :
  Forall (fun content => item_samples self content = Ok []) contents ->
  exists samples,
    mapM (fun content => returned (item_samples self content)) contents = Some samples
    /\ concat samples = [].
Proof.
  induction 1 as [|content contents Hc _ (samples & Hs & Hnil)]; simpl.
  - by exists [].
  - rewrite Hc. simpl. rewrite Hs. simpl. by exists ([] :: samples).
Qed.

(** X5: a loader as the constructor leaves it returns from [load] only
    the empty list, and does so exactly when the query's iterator ends
    normally and no item yields a sample. *)
Theorem constructed_load W args self items log :
  new W args = Ok self -> query_result W self items ->
  (forall docs, fst (load W self log) = Ok docs -> docs = [])
  /\ (fst (load W self log) = Ok [] <->
      failure items = None /\
      Forall (fun content => item_samples self content = Ok []) (yielded items)).
Proof.
  intros Hnew Hq. pose proof (new_file_path _ _ _ Hnew) as Hfp.
  rewrite (load_collect _ _ _ _ Hq).
  assert (forall docs, collect self items = Ok docs ->
            docs = [] /\ failure items = None /\
            Forall (fun content => item_samples self content = Ok []) (yielded items))
    as Hret.
  { intros docs (samples & Hfail & Hs & Hlen & Hk)%collect_spec%documents_of_inv.
    assert (docs = []) as ->.
    { destruct docs as [|d docs]; [done|].
      destruct (Hk 0%nat d eq_refl) as (s & _ & Hd).
      unfold sample_document, getattr in Hd. by rewrite Hfp in Hd. }
    repeat split; try done. simpl in Hlen. symmetry in Hlen.
    apply length_zero_iff_nil in Hlen.
    clear Hk. induction Hs as [|content ss contents samples Hc _ IH]; [done|].
    simpl in Hlen. apply app_eq_nil in Hlen as [-> Hrest]. constructor; auto. }
  split.
  - intros docs Hdocs. by destruct (Hret docs Hdocs).
  - split.
    + intros Hdocs. by destruct (Hret [] Hdocs) as (_ & ? & ?).
    + intros [Hfail Hall]. apply collect_spec. unfold documents_of. rewrite Hfail.
      destruct (mapM_no_samples self _ Hall) as (samples & -> & Hnil).
      simpl. by rewrite Hnil.
Qed.

(** X8: when the iterator of the query breaks after items that were all
    converted, [load] raises the iterator's exception as it is, and the
    documents of these items are lost. *)
Theorem query_failure_after_items W self items e docs log :
  query_result W self items ->
  failure items = Some e ->
  documents_of self {| yielded := yielded items; failure := None |} = Some docs ->
  parse_items self items [] = (Raise e, docs) /\ fst (load W self log) = Raise e.
Proof.
  intros Hq Hfail Hdocs.
  assert (parse_items self items [] = (Raise e, docs)) as Hloop.
  { pose proof (parse_items_spec self {| yielded := yielded items; failure := None |})
      as Hok. rewrite Hdocs in Hok.
    unfold parse_items, bind, end_of in *. simpl in Hok. rewrite Hfail.
    destruct (for_each _ _ _) as [[[]|e'] acc]; [|discriminate].
    unfold ret in Hok. by injection Hok as ->. }
  split; [done|]. rewrite (load_collect _ _ _ _ Hq). unfold collect. by rewrite Hloop.
Qed.

(** X11: when the first item of the query is not a string (a mapping
    already decoded, for instance), [load] raises the [TypeError] of
    [json.loads]. *)
Theorem load_item_not_str W self items content rest program log :
  query_result W self items ->
  yielded items = content :: rest ->
  self !! "_jq_schema" = Some (AProgram program) ->
  is_str content = false ->
  fst (load W self log)
  = Raise (TypeError ("the JSON object must be str, bytes or bytearray, not "
                      ++ type_name content)).
Proof.
  intros Hq Hitems Hprog Hstr. rewrite (load_collect _ _ _ _ Hq).
  unfold collect, parse_items, bind. rewrite Hitems. simpl.
  unfold bind, _parse, bind, lift, getattr. rewrite Hprog. simpl.
  by destruct content.
Qed.

(** X9: the constructor succeeds exactly when jq is importable and
    compiles the filter expression; the object then holds its seven
    attributes with the arguments as given and the compiled program.  It
    fails with the [ImportError] for jq, or with the exception of
    [jq.compile], unchanged. *)
Theorem new_outcome W args :
  match new W args with
  | Ok self =>
      exists compile program,
        jq W = Some compile /\ compile (jq_schema args) = Ok program /\
        dom self = {[ "_conn_str"; "database"; "container"; "query";
                      "_enable_cross_partition_query"; "_jq_schema"; "_text_content" ]} /\
        self !! "_conn_str" = Some (AStr (conn_str args)) /\
        self !! "database" = Some (AStr (database args)) /\
        self !! "container" = Some (AStr (container args)) /\
        self !! "query" = Some (AStr (query args)) /\
        self !! "_enable_cross_partition_query"
          = Some (ABool (enable_cross_partition_query args)) /\
        self !! "_jq_schema" = Some (AProgram program) /\
        self !! "_text_content" = Some (ABool (text_content args))
  | Raise e =>
      jq W = None /\
      e = ImportError "jq package not found, please install it with `pip install jq`"
      \/ exists compile, jq W = Some compile /\ compile (jq_schema args) = Raise e
  end.
Proof.
  destruct (new W args) as [self|e] eqn:Hnew.
  - apply new_inv in Hnew as (compile & program & Hjq & Hc & ->).
    exists compile, program. split; [done|]. split; [done|]. split.
    + rewrite !dom_insert_L, dom_empty_L. set_solver.
    + repeat split; by simplify_map_eq.
  - unfold new, __init__, BaseLoader, import_jq, bind, lift, setattr, modify in Hnew.
    destruct (jq W) as [compile|]; [|left; split; [done|congruence]].
    right. exists compile. split; [done|].
    destruct (compile (jq_schema args)); [discriminate|congruence].
Qed.

Lemma repr_text_nonempty v : repr_text v <> [].
Proof.
  destruct v as [| [] | z | [x| [] |] | s | l | d]; try done.
  - simpl. by pose proof (match_number_int z) as (c & t & -> & _)%match_number_head.
  - simpl. by pose proof (float_repr_number x) as (c & t & -> & _)%match_number_head.
Qed.

Lemma py_str_nonempty v text : py_str v = Ok text -> is_str v = false -> text <> [].
Proof.
  rewrite py_str_spec. destruct (ints_within_limit v); [|done].
  intros [= <-] Hstr. destruct v; try apply repr_text_nonempty. done.
Qed.

Lemma json_dumps_nonempty v text : json_dumps v = Ok text -> text <> [].
Proof.
  rewrite json_dumps_spec. destruct (ints_within_limit v); [|done].
  intros [= <-]. by destruct (json_text_head v) as (c & t & -> & _).
Qed.

(** X6: with text mode disabled, the text of a sample is empty exactly
    for the empty string, the empty mapping and [None]: three samples a
    reader of [page_content] cannot tell apart. *)
Theorem get_text_empty_iff self sample md :
  text_mode self false ->
  (_get_text self sample md = Ok [] <->
   sample = PStr [] \/ sample = PDict [] \/ sample = PNone).
Proof.
  intros Hmode. rewrite (get_text_off self sample md Hmode). split.
  - destruct sample as [| b | z | f | s | l | d].
    + auto.
    + intros H; by apply py_str_nonempty in H.
    + intros H; by apply py_str_nonempty in H.
    + intros H; by apply py_str_nonempty in H.
    + intros [= ->]. auto.
    + intros H; by apply py_str_nonempty in H.
    + destruct d as [|kv d]; auto. intros H; by apply json_dumps_nonempty in H.
  - by intros [-> | [-> | ->]].
Qed.



End LoaderMore.

(** * The added properties in the example world *)

Lemma example_query_result schema text_content items :
  (schema = u ".[]" \/ schema = u ".") ->
  query_result (example_world items) (with_file_path (constructed schema text_content))
               items
  /\ query_result (example_world items) (constructed schema text_content) items.
Proof.
  intros Hschema. split;
    exists (example_sdk items), 1%nat, 2%nat, 3%nat,
      (AStr (conn_str (example_args schema text_content))),
      (AStr (u "db")), (AStr (u "items")), (AStr (u "SELECT * FROM c")), (ABool true);
    destruct Hschema as [-> | ->];
    (split; [reflexivity|]); (split; [vm_compute; reflexivity|]);
    (split; [reflexivity|]); (split; [vm_compute; reflexivity|]);
    (split; [reflexivity|]); (split; [vm_compute; reflexivity|]);
    (split; [reflexivity|]); (split; [vm_compute; reflexivity|]);
    (split; [vm_compute; reflexivity|reflexivity]).
Qed.

Lemma load_documents_of_samples_witness :
  exists items samples,
    query_result (example_world two_items)
                 (with_file_path (constructed (u ".[]") false)) items /\
    Forall2 (fun content ss =>
               item_samples (with_file_path (constructed (u ".[]") false)) content = Ok ss)
            (yielded items) samples /\
    length example_docs = length (concat samples) /\
    forall (k : nat) d s md,
      example_docs !! k = Some d -> concat samples !! k = Some s ->
      _get_text (with_file_path (constructed (u ".[]") false)) s md = Ok (page_content d).
Proof.
  exact (load_documents_of_samples _ _ _ _ _ load_two_items).
Defined.

Lemma load_metadata_exact_witness :
  exists file_path,
    with_file_path (constructed (u ".[]") false) !! "file_path" = Some file_path /\
    forall (k : nat) d,
      example_docs !! k = Some d ->
      metadata d !! "source" = Some (PStr (attr_str file_path)) /\
      metadata d !! "seq_num" = Some (PInt (Z.of_nat k + 1)) /\
      dom (metadata d) = {[ "source"; "seq_num" ]}.
Proof.
  apply (load_metadata_exact _ _ _ _ _ load_two_items). discriminate.
Defined.

Lemma parse_second_item :
  _parse (with_file_path (constructed (u ".[]") false)) item_list
         [example_doc (u "x") 1; example_doc (u "y") 2]
  = (Ok tt, example_docs).
Proof. vm_compute. reflexivity. Qed.

Lemma parse_appends_witness :
  exists new,
    example_docs = [example_doc (u "x") 1; example_doc (u "y") 2] ++ new /\
    seq_nums new
    = map (fun k => Some (PInt (Z.of_nat (2 + 1 + k)))) (seq 0 (length new)).
Proof.
  exact (parse_appends _ _ _ _ _ parse_second_item).
Defined.

Lemma load_passes_configuration_witness :
  load (example_world two_items) (constructed (u ".[]") false) []
  = (collect (constructed (u ".[]") false) two_items, example_calls).
Proof.
  apply (load_passes_configuration (example_world two_items)
           (example_args (u ".[]") false) (constructed (u ".[]") false)
           (example_sdk two_items) 1%nat 2%nat 3%nat two_items []);
    reflexivity.
Defined.

Lemma constructed_load_witness :
  (forall docs,
     fst (load (example_world two_items) (constructed (u ".[]") false) []) = Ok docs ->
     docs = [])
  /\ (fst (load (example_world two_items) (constructed (u ".[]") false) []) = Ok [] <->
      failure two_items = None /\
      Forall (fun content => item_samples (constructed (u ".[]") false) content = Ok [])
             (yielded two_items)).
Proof.
  apply (constructed_load (example_world two_items) (example_args (u ".[]") false)).
  - reflexivity.
  - apply example_query_result. by left.
Defined.

Lemma get_text_empty_iff_witness :
  _get_text (constructed (u ".") false) PNone ∅ = Ok [] <->
  PNone = PStr [] \/ PNone = PDict [] \/ PNone = PNone.
Proof.
  apply (get_text_empty_iff (constructed (u ".") false) PNone ∅).
  vm_compute. reflexivity.
Defined.

Lemma load_text_mode_items :
  load (example_world {| yielded := [item_ab]; failure := None |})
       (with_file_path (constructed (u ".[]") true)) []
  = (Ok [example_doc (u "x") 1; example_doc (u "y") 2], example_calls).
Proof. vm_compute. reflexivity. Qed.

Lemma load_text_mode_strings_witness :
  exists items samples,
    query_result (example_world {| yielded := [item_ab]; failure := None |})
                 (with_file_path (constructed (u ".[]") true)) items /\
    Forall2 (fun content ss =>
               item_samples (with_file_path (constructed (u ".[]") true)) content = Ok ss)
            (yielded items) samples /\
    concat samples
    = map (fun d => PStr (page_content d)) [example_doc (u "x") 1; example_doc (u "y") 2].
Proof.
  apply (load_text_mode_strings
           (example_world {| yielded := [item_ab]; failure := None |})
           (with_file_path (constructed (u ".[]") true)) []
           [example_doc (u "x") 1; example_doc (u "y") 2] example_calls).
  - vm_compute. reflexivity.
  - exact load_text_mode_items.
Defined.

Lemma query_failure_after_items_witness :
  parse_items (with_file_path (constructed (u ".[]") false)) interrupted_items []
  = (Raise throttled, [example_doc (u "x") 1; example_doc (u "y") 2])
  /\ fst (load (example_world interrupted_items)
               (with_file_path (constructed (u ".[]") false)) [])
     = Raise throttled.
Proof.
  apply (query_failure_after_items (example_world interrupted_items)).
  - apply example_query_result. by left.
  - reflexivity.
  - vm_compute. reflexivity.
Defined.

Lemma load_calls_witness :
  exists conn client dname db cname cont q cross,
    (example_calls `prefix_of`
       [] ++ [CallFromConnectionString conn; CallGetDatabaseClient client dname;
              CallGetContainerClient db cname; CallQueryItems cont q cross])
    /\ (forall docs, Ok example_docs = Ok docs -> length example_calls = (0 + 4)%nat).
Proof.
  exact (load_calls _ _ _ _ _ load_two_items).
Defined.

Lemma load_item_not_str_witness :
  fst (load (example_world decoded_items) (with_file_path (constructed (u ".") false)) [])
  = Raise (TypeError "the JSON object must be str, bytes or bytearray, not dict").
Proof.
  apply (load_item_not_str (example_world decoded_items)
           (with_file_path (constructed (u ".") false)) decoded_items
           (PDict [(u "a", PStr (u "x"))]) [] jq_identity []).
  - apply example_query_result. by right.
  - reflexivity.
  - vm_compute. reflexivity.
  - reflexivity.
Defined.

